(** * Veklo: head tracking to audio balance

    A shallow embedding of [head_track_audio.py] (class
    [HeadTrackingAudioBalancer]) and of the balance arithmetic of
    [veklo_menubar_app.py] (class [VekloMenubarApp]).

    Python [int] values are [Z].  Python [float] values are kept abstract
    behind the interface [PyFloat], and every method is written once over
    that interface.  Three arithmetics are given:

    - [ExactQ]: floats read as exact rationals, the arithmetic the
      algebraic properties (clamping, monotonicity, rate limiting) are
      about;
    - [Binary64]: IEEE 754 binary64 with round-to-nearest-even, the
      arithmetic CPython runs, built from the Standard Library's
      [SpecFloat];
    - [Numpy64]: the same binary64 with NumPy's division, which warns
      and yields an infinity or a NaN where Python raises
      [ZeroDivisionError].

    Face positions and frame widths are [Z].  A direct call of a method
    passes Python [int]s, and [ExactQ] and [Binary64] are its
    arithmetic.  OpenCV hands the loops NumPy integers, so the divisions
    by a position-dependent value inside the running program are NumPy's:
    [Numpy64] is the arithmetic of those calls (positions are taken
    within the 32-bit range, where NumPy's integer arithmetic is exact).

    Console output ([print]) is not modelled.  The camera, the face
    detector, the clock, the keyboard and the AppleScript bridge are
    inputs of the model; calls that change the outside world are recorded
    as a list of [Action]s. *)

From Stdlib Require Import String ZArith QArith Qabs Qround Qpower Bool List.
From Stdlib Require Import Lia Lqa Zpower Floats.SpecFloat.
Import ListNotations.

Local Open Scope Z_scope.

(** ** Python floats as an interface *)

Class PyFloat (F : Type) := {
  (** [float(n)] for an [int] n, as mixed int/float arithmetic applies it. *)
  of_int : Z -> F;
  (** The decimal literal [n/d], e.g. [0.8] is [lit 8 10]. *)
  lit : Z -> positive -> F;
  fadd : F -> F -> F;
  fsub : F -> F -> F;
  fmul : F -> F -> F;
  (** [x / y]; [None] is Python's [ZeroDivisionError]. *)
  fdiv : F -> F -> option F;
  (** Unary minus. *)
  fneg : F -> F;
  (** [x < y]. *)
  flt : F -> F -> bool;
  (** [int(x)], truncation toward zero; [None] is the [OverflowError] or
      [ValueError] of an infinity or a NaN. *)
  to_int : F -> option Z
}.

(** Python's built-in [min(a, b)] and [max(a, b)] on two arguments: the
    first argument is kept unless the second is strictly smaller
    (resp. greater). *)
Definition py_min {F} `{PyFloat F} (a b : F) : F := if flt b a then b else a.
Definition py_max {F} `{PyFloat F} (a b : F) : F := if flt a b then b else a.

(** *** Exact rationals *)

Definition Qlt_bool (x y : Q) : bool := negb (Qle_bool y x).

Definition Qtrunc (q : Q) : Z := Z.quot (Qnum q) (Zpos (Qden q)).

#[export] Instance ExactQ : PyFloat Q := {
  of_int := inject_Z;
  lit := Qmake;
  fadd := Qplus;
  fsub := Qminus;
  fmul := Qmult;
  fdiv := fun x y => if Qeq_bool y 0 then None else Some (Qdiv x y);
  fneg := Qopp;
  flt := Qlt_bool;
  to_int := fun x => Some (Qtrunc x)
}.

(** *** IEEE 754 binary64 *)

Module B64.

Definition prec : Z := 53.
Definition emax : Z := 1024.

Definition float := spec_float.

(** [float(n)]: the nearest binary64 to the integer [n].  (CPython
    raises [OverflowError] beyond the binary64 range, where this gives
    an infinity; pixel coordinates and percentages are far below.) *)
Definition of_Z (n : Z) : float := binary_normalize prec emax n 0 false.

Definition add := SFadd prec emax.
Definition sub := SFsub prec emax.
Definition mul := SFmul prec emax.
Definition opp := SFopp.
Definition ltb := SFltb.
Definition leb := SFleb.
Definition eqb := SFeqb.

(** Float division raises [ZeroDivisionError] when the divisor is a
    zero of either sign, whatever the dividend. *)
Definition div (x y : float) : option float :=
  match y with
  | S754_zero _ => None
  | _ => Some (SFdiv prec emax x y)
  end.

(** A decimal literal is the correctly rounded quotient of its
    numerator and denominator (both exact in binary64). *)
Definition literal (n : Z) (d : positive) : float :=
  SFdiv prec emax (of_Z n) (of_Z (Zpos d)).

(** [int(x)]: the integer part, toward zero. *)
Definition trunc (x : float) : option Z :=
  match x with
  | S754_zero _ => Some 0
  | S754_finite s m e =>
      let mag := match e with
                 | Zneg p => Z.shiftr (Zpos m) (Zpos p)
                 | _ => Z.shiftl (Zpos m) e
                 end in
      Some (if s then - mag else mag)
  | S754_infinity _ | S754_nan => None
  end.

(** The real value of a finite float. *)
Definition to_Q (x : float) : Q :=
  match x with
  | S754_finite s m e =>
      let v := match e with
               | Zneg p => Zpos m # Pos.shiftl 1 (Npos p)
               | _ => inject_Z (Z.shiftl (Zpos m) e)
               end in
      if s then Qopp v else v
  | _ => 0%Q
  end.

End B64.

#[export] Instance Binary64 : PyFloat B64.float := {
  of_int := B64.of_Z;
  lit := B64.literal;
  fadd := B64.add;
  fsub := B64.sub;
  fmul := B64.mul;
  fdiv := B64.div;
  fneg := B64.opp;
  flt := B64.ltb;
  to_int := B64.trunc
}.

(** *** NumPy scalars

    [numpy.float64] division follows IEEE 754: dividing by a zero gives
    an infinity or a NaN (with a [RuntimeWarning]) and never raises.  It
    is the division at work whenever an operand is a NumPy scalar, as
    every position coming from [detectMultiScale] is. *)
Definition np_div (x y : B64.float) : option B64.float :=
  Some (SFdiv B64.prec B64.emax x y).

Definition Numpy64 : PyFloat B64.float := {|
  of_int := B64.of_Z;
  lit := B64.literal;
  fadd := B64.add;
  fsub := B64.sub;
  fmul := B64.mul;
  fdiv := np_div;
  fneg := B64.opp;
  flt := B64.ltb;
  to_int := B64.trunc
|}.

(** ** The balancer's state *)

(** The fields of [HeadTrackingAudioBalancer.__init__] that the control
    loop reads or writes.  [face_cascade] and [cap] are the external
    detector and camera; [screen_center_x] is written once and never
    read. *)
Record Balancer (F : Type) := mkBalancer {
  running : bool;
  last_balance_update : F;
  update_frequency : F;
  show_preview : bool;
  calibrated : bool;
  calibration_center_x : option Z;
  sensitivity : F;
  original_system_balance : option Z;
  use_eqmac : bool;
  last_face_position : option Z;
  use_cartoon_filter : bool
}.

Arguments mkBalancer {F}.
Arguments running {F}.
Arguments last_balance_update {F}.
Arguments update_frequency {F}.
Arguments show_preview {F}.
Arguments calibrated {F}.
Arguments calibration_center_x {F}.
Arguments sensitivity {F}.
Arguments original_system_balance {F}.
Arguments use_eqmac {F}.
Arguments last_face_position {F}.
Arguments use_cartoon_filter {F}.

(** What the program does to the outside world. *)
Inductive Action :=
| CapRelease                      (* self.cap.release() *)
| DestroyAllWindows               (* cv2.destroyAllWindows() *)
| SetSystemBalance (pct : Z)      (* set_system_balance(pct): osascript *)
| SetEqmacBalance (pct : Z).      (* set_eqmac_balance(pct) *)

(** An actuator invocation: either backend's [set_*_balance]. *)
Definition is_actuator (a : Action) : bool :=
  match a with
  | SetSystemBalance _ | SetEqmacBalance _ => true
  | _ => false
  end.

Definition actuator_pct (a : Action) : option Z :=
  match a with
  | SetSystemBalance p | SetEqmacBalance p => Some p
  | _ => None
  end.

(** A detected face: [(x, y, w, h)]. *)
Definition Box : Type := Z * Z * Z * Z.

Section Methods.

Context {F : Type} `{PyFloat F}.

(** Field updates, one per assignment target. *)
Definition set_running (b : bool) (st : Balancer F) : Balancer F :=
  mkBalancer b (last_balance_update st) (update_frequency st)
    (show_preview st) (calibrated st) (calibration_center_x st)
    (sensitivity st) (original_system_balance st) (use_eqmac st)
    (last_face_position st) (use_cartoon_filter st).

Definition set_last_balance_update (t : F) (st : Balancer F) : Balancer F :=
  mkBalancer (running st) t (update_frequency st)
    (show_preview st) (calibrated st) (calibration_center_x st)
    (sensitivity st) (original_system_balance st) (use_eqmac st)
    (last_face_position st) (use_cartoon_filter st).

Definition set_show_preview (b : bool) (st : Balancer F) : Balancer F :=
  mkBalancer (running st) (last_balance_update st) (update_frequency st)
    b (calibrated st) (calibration_center_x st)
    (sensitivity st) (original_system_balance st) (use_eqmac st)
    (last_face_position st) (use_cartoon_filter st).

Definition set_sensitivity (s : F) (st : Balancer F) : Balancer F :=
  mkBalancer (running st) (last_balance_update st) (update_frequency st)
    (show_preview st) (calibrated st) (calibration_center_x st)
    s (original_system_balance st) (use_eqmac st)
    (last_face_position st) (use_cartoon_filter st).

Definition set_use_eqmac (b : bool) (st : Balancer F) : Balancer F :=
  mkBalancer (running st) (last_balance_update st) (update_frequency st)
    (show_preview st) (calibrated st) (calibration_center_x st)
    (sensitivity st) (original_system_balance st) b
    (last_face_position st) (use_cartoon_filter st).

Definition set_last_face_position (p : Z) (st : Balancer F) : Balancer F :=
  mkBalancer (running st) (last_balance_update st) (update_frequency st)
    (show_preview st) (calibrated st) (calibration_center_x st)
    (sensitivity st) (original_system_balance st) (use_eqmac st)
    (Some p) (use_cartoon_filter st).

Definition set_use_cartoon_filter (b : bool) (st : Balancer F) : Balancer F :=
  mkBalancer (running st) (last_balance_update st) (update_frequency st)
    (show_preview st) (calibrated st) (calibration_center_x st)
    (sensitivity st) (original_system_balance st) (use_eqmac st)
    (last_face_position st) b.

(** [__init__]; [now] is the value of [time.time()]. *)
Definition init (now : F) : Balancer F :=
  mkBalancer true now (lit 2 10) true false None (lit 8 10) None true None
    true.

(** [get_current_system_balance]: 50 for eqMac; otherwise the integer
    AppleScript answers, [reply = None] standing for a failed call or an
    answer [int] cannot parse (the handler returns 50). *)
Definition get_current_system_balance (st : Balancer F) (reply : option Z)
  : Z :=
  if use_eqmac st then 50
  else match reply with
       | Some b => b
       | None => 50
       end.

(** The center the mapper measures from: the calibrated position, or
    [frame_width / 2]. *)
Definition center_position (st : Balancer F) (frame_width : Z) : option F :=
  match calibrated st, calibration_center_x st with
  | true, Some c => Some (of_int c)
  | _, _ => fdiv (of_int frame_width) (of_int 2)
  end.

(** [offset = face_x - center_position]: integer subtraction when the
    center is the calibrated [int], float subtraction otherwise. *)
Definition offset_from_center (st : Balancer F) (face_x frame_width : Z)
  : option F :=
  match calibrated st, calibration_center_x st with
  | true, Some c => Some (of_int (face_x - c))
  | _, _ =>
      match fdiv (of_int frame_width) (of_int 2) with
      | Some c => Some (fsub (of_int face_x) c)
      | None => None
      end
  end.

(** [calculate_audio_balance]; [None] is an escaping
    [ZeroDivisionError], which Python's own division raises and NumPy's
    does not (see [Numpy64]). *)
Definition calculate_audio_balance (st : Balancer F) (face_x frame_width : Z)
  : option F :=
  match center_position st frame_width,
        offset_from_center st face_x frame_width with
  | Some center, Some offset =>
      match fdiv offset (fmul center (sensitivity st)) with
      | Some balance =>
          let balance := py_max (fneg (lit 1 1)) (py_min (lit 1 1) balance) in
          Some (fneg balance)
      | None => None
      end
  | _, _ => None
  end.

(** [balance_percentage = int((balance + 1) * 50)]. *)
Definition balance_percentage (balance : F) : option Z :=
  to_int (fmul (fadd balance (of_int 1)) (of_int 50)).

(** [set_audio_balance]: the backend call it makes; [None] when [int]
    raises. *)
Definition set_audio_balance (st : Balancer F) (balance : F)
  : option Action :=
  match balance_percentage balance with
  | Some pct =>
      Some (if use_eqmac st then SetEqmacBalance pct
            else SetSystemBalance pct)
  | None => None
  end.

(** [calibrate(face_x)]; [reply] is the AppleScript answer should the
    system backend be queried. *)
Definition calibrate (st : Balancer F) (face_x : option Z)
    (reply : option Z) : Balancer F :=
  let face_x := match face_x with
                | Some x => Some x
                | None => last_face_position st
                end in
  match face_x with
  | None => st                       (* "Cannot calibrate" *)
  | Some x =>
      mkBalancer (running st) (last_balance_update st) (update_frequency st)
        (show_preview st) true (Some x) (sensitivity st)
        (Some (get_current_system_balance st reply)) (use_eqmac st)
        (last_face_position st) (use_cartoon_filter st)
  end.

(** A [calibrate] call that did not take the early return. *)
Definition calibrate_succeeds (st : Balancer F) (face_x : option Z) : bool :=
  match face_x, last_face_position st with
  | None, None => false
  | _, _ => true
  end.

(** [adjust_sensitivity(increment)]. *)
Definition adjust_sensitivity (st : Balancer F) (increment : F)
  : Balancer F :=
  let s := py_max (lit 2 10)
             (py_min (lit 2 1) (fadd (sensitivity st) increment)) in
  let s := if flt (lit 19 10) s && flt (of_int 0) increment
           then lit 2 10 else s in
  set_sensitivity s st.

Definition toggle_audio_mode (st : Balancer F) : Balancer F :=
  set_use_eqmac (negb (use_eqmac st)) st.

Definition toggle_cartoon_filter (st : Balancer F) : Balancer F :=
  set_use_cartoon_filter (negb (use_cartoon_filter st)) st.

End Methods.

(** ** The tracking loop *)

(** Key codes compared against [cv2.waitKey(1) & 0xFF]. *)
Definition ord_q : Z := 113.
Definition ord_c : Z := 99.
Definition ord_s : Z := 115.
Definition ord_m : Z := 109.
Definition ord_f : Z := 102.

(** What one pass of the [while] body receives from outside.  The input
    thread ([handle_terminal_input]) shares the object; the lines it
    handled since the previous pass are applied at the pass boundary. *)
Record Tick (F : Type) := mkTick {
  (** stripped, lower-cased terminal lines, each with the AppleScript
      answer a [calibrate] would get *)
  t_lines : list (string * option Z);
  (** [ret] of [self.cap.read()] *)
  t_ret : bool;
  (** [detectMultiScale]'s boxes; [None] when [cvtColor] or the detector
      raises *)
  t_faces : option (list Box);
  (** [time.time()] *)
  t_now : F;
  (** whether the drawing and [imshow] calls of the preview succeed *)
  t_preview_ok : bool;
  (** [cv2.waitKey(1)] *)
  t_key : Z;
  (** the AppleScript answer a key-triggered [calibrate] would get *)
  t_reply : option Z
}.

Arguments mkTick {F}.
Arguments t_lines {F}.
Arguments t_ret {F}.
Arguments t_faces {F}.
Arguments t_now {F}.
Arguments t_preview_ok {F}.
Arguments t_key {F}.
Arguments t_reply {F}.

(** Why the [while] loop was left. *)
Inductive Exit :=
| Stopped        (* [self.running] found false *)
| ReadFailed     (* [ret] false: break *)
| QuitKey        (* key q: break *)
| Raised.        (* an exception reached [except Exception] *)

(** One pass either goes on to the next or leaves the loop. *)
Inductive Flow (F : Type) :=
| Continue (st : Balancer F) (acts : list Action)
| Leave (st : Balancer F) (acts : list Action) (why : Exit).

Arguments Continue {F}.
Arguments Leave {F}.

(** How [track_head] ended. *)
Inductive Outcome (F : Type) :=
| NotStarted                          (* camera closed or first read failed *)
| StillRunning (st : Balancer F) (acts : list Action)
| Finished (st : Balancer F) (acts : list Action) (why : Exit)
| TeardownRaised (st : Balancer F) (acts : list Action).

Arguments NotStarted {F}.
Arguments StillRunning {F}.
Arguments Finished {F}.
Arguments TeardownRaised {F}.

Definition area (b : Box) : Z := let '(_, _, w, h) := b in w * h.

(** [max(faces, key=lambda x: x[2] * x[3])]: the first box of largest
    area. *)
Fixpoint largest_from (best : Box) (faces : list Box) : Box :=
  match faces with
  | [] => best
  | b :: rest => largest_from (if area best <? area b then b else best) rest
  end.

Section Loop.

Context {F : Type} `{PyFloat F}.

(** One line read by [handle_terminal_input]. *)
Definition handle_terminal_input (st : Balancer F)
    (line : string * option Z) : Balancer F :=
  let '(cmd, reply) := line in
  if String.eqb cmd "q" then set_running false st
  else if String.eqb cmd "c" then calibrate st None reply
  else if String.eqb cmd "s" then adjust_sensitivity st (lit 1 10)
  else if String.eqb cmd "m" then toggle_audio_mode st
  else if String.eqb cmd "f" then toggle_cartoon_filter st
  else st.

(** The face branch of the loop body: remember the position and, when the
    interval has elapsed, move the balance.  The state is returned with
    the actions, [None] for an exception that escapes. *)
Definition update_balance (st : Balancer F) (frame_width face_center_x : Z)
    (current_time : F) : Balancer F * option (list Action) :=
  let st := set_last_face_position face_center_x st in
  if flt (update_frequency st) (fsub current_time (last_balance_update st))
  then
    match calculate_audio_balance st face_center_x frame_width with
    | Some balance =>
        match set_audio_balance st balance with
        | Some a => (set_last_balance_update current_time st, Some [a])
        | None => (st, None)
        end
    | None => (st, None)
    end
  else (st, Some []).

(** The preview branch: the meter, then the key.  A failure inside is
    caught and switches the preview off; the boolean is the [break] of
    key q. *)
Definition preview (st : Balancer F) (frame_width : Z)
    (face : option Z) (t : Tick F) : Balancer F * bool :=
  let meter_ok :=
    match last_face_position st with
    | Some p =>
        match calculate_audio_balance st p frame_width with
        | Some _ => true
        | None => false
        end
    | None => false        (* [balance] is unbound in [status_text] *)
    end in
  if t_preview_ok t && meter_ok then
    let key := Z.land (t_key t) 255 in
    if key =? ord_q then (set_running false st, true)
    else if (key =? ord_c) && (match face with Some _ => true | None => false end)
    then (calibrate st face (t_reply t), false)
    else if key =? ord_s then (adjust_sensitivity st (lit 1 10), false)
    else if key =? ord_m then (toggle_audio_mode st, false)
    else if key =? ord_f then (toggle_cartoon_filter st, false)
    else (st, false)
  else (set_show_preview false st, false).

(** Detection results: the tracked face's center, if any face. *)
Definition face_center (faces : list Box) : option Z :=
  match faces with
  | [] => None
  | b :: rest => let '(x, _, w, _) := largest_from b rest in Some (x + w / 2)
  end.

(** One pass of the [while] loop, from its condition to [time.sleep]. *)
Definition loop_pass (frame_width : Z) (st : Balancer F) (t : Tick F)
    : Flow F :=
  let st := fold_left handle_terminal_input (t_lines t) st in
  if negb (running st) then Leave st [] Stopped
  else if negb (t_ret t) then Leave st [] ReadFailed
  else
    match t_faces t with
    | None => Leave st [] Raised
    | Some faces =>
        let face := face_center faces in
        let '(st, acts) :=
          match face with
          | Some face_center_x =>
              update_balance st frame_width face_center_x (t_now t)
          | None => (st, Some [])
          end in
        match acts with
        | None => Leave st [] Raised
        | Some acts =>
            if show_preview st then
              let '(st, quit) := preview st frame_width face t in
              if quit then Leave st acts QuitKey else Continue st acts
            else Continue st acts
        end
    end.

(** The [while] loop over the passes the outside world supplies. *)
Fixpoint run_loop (frame_width : Z) (st : Balancer F) (ticks : list (Tick F))
    : Balancer F * list Action * option Exit :=
  match ticks with
  | [] => (st, [], None)
  | t :: rest =>
      match loop_pass frame_width st t with
      | Leave st' acts why => (st', acts, Some why)
      | Continue st' acts =>
          let '(st'', acts', why) := run_loop frame_width st' rest in
          (st'', acts ++ acts', why)
      end
  end.

(** The [finally] block's restoring call. *)
Definition restore_balance (st : Balancer F) : option Action :=
  match original_system_balance st with
  | Some original =>
      match fdiv (of_int original) (of_int 50) with
      | Some q => set_audio_balance st (fsub q (of_int 1))
      | None => None
      end
  | None => set_audio_balance st (of_int 0)
  end.

(** The [finally] block; [None] when the restoring call raises. *)
Definition teardown (st : Balancer F) : list Action * option Action :=
  (CapRelease :: (if show_preview st then [DestroyAllWindows] else []),
   restore_balance st).

(** [track_head]: [opened] is [self.cap.isOpened()], [first] the width of
    the first frame ([None] when that read fails). *)
Definition track_head (st : Balancer F) (opened : bool) (first : option Z)
    (ticks : list (Tick F)) : Outcome F :=
  if negb opened then NotStarted
  else
    match first with
    | None => NotStarted
    | Some frame_width =>
        match run_loop frame_width st ticks with
        | (st', acts, None) => StillRunning st' acts
        | (st', acts, Some why) =>
            match teardown st' with
            | (pre, Some a) => Finished st' (acts ++ pre ++ [a]) why
            | (pre, None) => TeardownRaised st' (acts ++ pre)
            end
        end
    end.

End Loop.

(** ** The menubar front-end ([VekloMenubarApp]) *)

Module Menubar.

(** The fields of [VekloMenubarApp] its tracking thread reads or writes. *)
Record App (F : Type) := mkApp {
  running : bool;
  sensitivity : F;
  balance : F;
  last_face_position : option Z;
  last_balance_update : F;
  update_frequency : F
}.

Arguments mkApp {F}.
Arguments running {F}.
Arguments sensitivity {F}.
Arguments balance {F}.
Arguments last_face_position {F}.
Arguments last_balance_update {F}.
Arguments update_frequency {F}.

(** Callbacks of the menu, run by the main thread between passes. *)
Inductive UiEvent (F : Type) :=
| BalanceSlider (value : F)        (* on_balance_change *)
| SensitivitySlider (value : F)    (* on_sensitivity_change *)
| StopTracking.                    (* toggle_tracking while running, quit_app *)

Arguments BalanceSlider {F}.
Arguments SensitivitySlider {F}.
Arguments StopTracking {F}.

(** What one pass of the tracking thread receives from outside. *)
Record Tick (F : Type) := mkTick {
  t_events : list (UiEvent F);
  t_opened : bool;                  (* self.cap.isOpened() *)
  t_ret : bool;                     (* ret of self.cap.read() *)
  t_frame_width : Z;                (* frame.shape[1] *)
  t_faces : option (list Box);      (* None: the image pipeline raises *)
  t_now : F;                        (* time.time() *)
  (** the slider's [highlighted] test: [Some true] while the user drags
      it, [None] when the test itself raises *)
  t_highlighted : option bool;
  t_key : Z                         (* cv2.waitKey(1) *)
}.

Arguments mkTick {F}.
Arguments t_events {F}.
Arguments t_opened {F}.
Arguments t_ret {F}.
Arguments t_frame_width {F}.
Arguments t_faces {F}.
Arguments t_now {F}.
Arguments t_highlighted {F}.
Arguments t_key {F}.

Section App.

Context {F : Type} `{PyFloat F}.

Definition init (now : F) : App F :=
  mkApp false (lit 8 10) (lit 0 1) None now (lit 2 10).

(** [set_audio_balance]: always the system backend. *)
Definition set_audio_balance (balance : F) : option Action :=
  match balance_percentage balance with
  | Some pct => Some (SetSystemBalance pct)
  | None => None
  end.

(** The state change of a menu callback (its own actuator call belongs to
    the main thread, not to the tracking loop). *)
Definition ui_event (st : App F) (e : UiEvent F) : App F :=
  match e with
  | BalanceSlider v =>
      mkApp (running st) (sensitivity st) v (last_face_position st)
        (last_balance_update st) (update_frequency st)
  | SensitivitySlider v =>
      mkApp (running st) v (balance st) (last_face_position st)
        (last_balance_update st) (update_frequency st)
  | StopTracking =>
      mkApp false (sensitivity st) (balance st) (last_face_position st)
        (last_balance_update st) (update_frequency st)
  end.

(** Lines 212 to 217: the balance of a face at [face_center_x]. *)
Definition tracked_balance (st : App F) (face_center_x frame_width : Z)
    : option F :=
  match fdiv (of_int frame_width) (of_int 2) with
  | Some half =>
      let offset := fsub (of_int face_center_x) half in
      match fdiv offset (fmul half (sensitivity st)) with
      | Some balance =>
          let balance := py_max (fneg (lit 1 1)) (py_min (lit 1 1) balance) in
          Some (fneg balance)
      | None => None
      end
  | None => None
  end.

(** The face branch.  [relative_position] divides by the frame width
    first.  The [try] block's test of the slider is the failure its
    handler expects; the menu updates after the actuator call are taken
    to succeed. *)
Definition update_balance (st : App F) (t : Tick F) (face_center_x : Z)
    : App F * option (list Action) :=
  let st := mkApp (running st) (sensitivity st) (balance st)
              (Some face_center_x) (last_balance_update st)
              (update_frequency st) in
  if t_frame_width t =? 0 then (st, None)
  else if flt (update_frequency st)
            (fsub (t_now t) (last_balance_update st))
  then
    match tracked_balance st face_center_x (t_frame_width t) with
    | None => (st, None)
    | Some b =>
        match t_highlighted t with
        | Some true =>
            (mkApp (running st) (sensitivity st) (balance st)
               (last_face_position st) (t_now t) (update_frequency st),
             Some [])
        | _ =>
            match set_audio_balance b with
            | Some a =>
                (mkApp (running st) (sensitivity st) b
                   (last_face_position st) (t_now t) (update_frequency st),
                 Some [a])
            | None =>
                (mkApp (running st) (sensitivity st) b
                   (last_face_position st) (last_balance_update st)
                   (update_frequency st), None)
            end
        end
    end
  else (st, Some []).

(** One pass of the tracking thread's [while] loop; the boolean tells
    whether the loop goes on. *)
Definition loop_pass (st : App F) (t : Tick F)
    : App F * list Action * bool :=
  let st := fold_left ui_event (t_events t) st in
  if negb (running st) then (st, [], false)
  else if negb (t_opened t) then (st, [], false)
  else if negb (t_ret t) then (st, [], false)
  else
    match t_faces t with
    | None => (st, [], false)
    | Some faces =>
        let '(st, acts) :=
          match face_center faces with
          | Some face_center_x => update_balance st t face_center_x
          | None => (st, Some [])
          end in
        match acts with
        | None => (st, [], false)
        | Some acts =>
            let meter_raises :=
              match last_face_position st with
              | Some _ => t_frame_width t =? 0
              | None => false
              end in
            if meter_raises then (st, acts, false)
            else if Z.land (t_key t) 255 =? 27 then (st, acts, false)
            else (st, acts, true)
        end
    end.

(** The [while] loop of the thread over the passes the outside world
    supplies; the [finally] block that follows it is added by
    [menubar_track_head] below. *)
Fixpoint run_loop (st : App F) (ticks : list (Tick F))
    : App F * list Action :=
  match ticks with
  | [] => (st, [])
  | t :: rest =>
      match loop_pass st t with
      | (st', acts, false) => (st', acts)
      | (st', acts, true) =>
          let '(st'', acts') := run_loop st' rest in (st'', acts ++ acts')
      end
  end.

End App.

End Menubar.

(** ** Vocabulary of the properties *)

(** The range the sensitivity coefficient is kept in. *)
Definition sensitivity_in_range (s : Q) : Prop := (2 # 10 <= s <= 2)%Q.

(** [max(lo, min(hi, x))] over exact rationals. *)
Definition clampQ (lo hi x : Q) : Q := py_max lo (py_min hi x).

(** The mapper's locals over exact rationals, in closed form. *)
Definition centerQ (st : Balancer Q) (frame_width : Z) : Q :=
  match calibrated st, calibration_center_x st with
  | true, Some c => inject_Z c
  | _, _ => (inject_Z frame_width / 2)%Q
  end.

Definition offsetQ (st : Balancer Q) (face_x frame_width : Z) : Q :=
  match calibrated st, calibration_center_x st with
  | true, Some c => inject_Z (face_x - c)
  | _, _ => (inject_Z face_x - inject_Z frame_width / 2)%Q
  end.

Definition rawQ (st : Balancer Q) (face_x frame_width : Z) : Q :=
  (offsetQ st face_x frame_width
   / (centerQ st frame_width * sensitivity st))%Q.

(** Python 3's [round]: to the nearest integer, ties to the even one. *)
Definition py_round (q : Q) : Z :=
  let f := Qfloor q in
  let r := (q - inject_Z f)%Q in
  if Qlt_bool r (1 # 2) then f
  else if Qlt_bool (1 # 2) r then f + 1
  else if Z.even f then f else f + 1.

(** Whether a pass called the actuator. *)
Definition fired (acts : list Action) : bool := existsb is_actuator acts.

Definition pass_result {F} (fl : Flow F) : Balancer F * list Action :=
  match fl with
  | Continue st acts | Leave st acts _ => (st, acts)
  end.

Section GateVocabulary.

Context {F : Type} `{PyFloat F}.

(** The [time.time()] values of the passes whose face branch called the
    actuator. *)
Fixpoint actuation_times (frame_width : Z) (st : Balancer F)
    (ticks : list (Tick F)) : list F :=
  match ticks with
  | [] => []
  | t :: rest =>
      match loop_pass frame_width st t with
      | Leave _ acts _ => if fired acts then [t_now t] else []
      | Continue st' acts =>
          (if fired acts then [t_now t] else [])
            ++ actuation_times frame_width st' rest
      end
  end.

(** The gate's test, as the loop evaluates it. *)
Definition gate_open (st : Balancer F) (now : F) : bool :=
  flt (update_frequency st) (fsub now (last_balance_update st)).

(** Two states with the same rate-limit fields. *)
Definition same_timer (a b : Balancer F) : Prop :=
  last_balance_update a = last_balance_update b /\
  update_frequency a = update_frequency b.

Fixpoint menubar_actuation_times (st : Menubar.App F)
    (ticks : list (Menubar.Tick F)) : list F :=
  match ticks with
  | [] => []
  | t :: rest =>
      match Menubar.loop_pass st t with
      | (st', acts, continue) =>
          (if fired acts then [Menubar.t_now t] else [])
            ++ (if continue then menubar_actuation_times st' rest else [])
      end
  end.

Definition menubar_gate_open (st : Menubar.App F) (now : F) : bool :=
  flt (Menubar.update_frequency st) (fsub now (Menubar.last_balance_update st)).

(** The percentage the [finally] block hands to the actuator once
    [original] was captured. *)
Definition restored_percentage (original : Z) : option Z :=
  match restore_balance
          (mkBalancer true (of_int 0) (lit 2 10) true true (Some 0)
             (lit 8 10) (Some original) false None true) with
  | Some a => actuator_pct a
  | None => None
  end.

End GateVocabulary.

(** Successive elements are more than [g] apart. *)
Fixpoint gaps_exceed (g : Q) (l : list Q) : Prop :=
  match l with
  | x :: ((y :: _) as tl) => (g < y - x)%Q /\ gaps_exceed g tl
  | _ => True
  end.

(** Membership in the closed one-second span that starts at [a]. *)
Definition in_window (a t : Q) : bool :=
  Qle_bool a t && Qle_bool t (a + 1)%Q.

(** [lo, lo+1, ..., lo+n-1] *)
Definition zrange (lo : Z) (n : nat) : list Z :=
  map (fun k => lo + Z.of_nat k) (seq 0 n).

(** *** Binary64 vocabulary and scenarios *)

Definition b64_one : B64.float := B64.literal 1 1.
Definition b64_minus_one : B64.float := B64.opp b64_one.

(** A float in the closed interval from [lo] to [hi], by IEEE comparison
    (so not a NaN). *)
Definition b64_between (lo hi x : B64.float) : Prop :=
  B64.leb lo x = true /\ B64.leb x hi = true.

(** The object as [__init__] leaves it, in each arithmetic. *)
Definition q_default : Balancer Q := init 0%Q.
Definition b64_default : Balancer B64.float := init (B64.of_Z 0).

(** The percentages of 0..100 that the [finally] block does not hand back
    in binary64. *)
Definition b64_restore_misses : list Z :=
  filter (fun p => match restored_percentage (F := B64.float) p with
                   | Some q => negb (q =? p)
                   | None => true
                   end) (zrange 0 101).

Definition b64_balance_at (st : Balancer B64.float) (w x : Z) : B64.float :=
  match calculate_audio_balance st x w with
  | Some b => b
  | None => S754_nan
  end.

(** Non-increasing along a list, by IEEE comparison. *)
Fixpoint b64_non_increasing (l : list B64.float) : bool :=
  match l with
  | x :: ((y :: _) as tl) => B64.leb y x && b64_non_increasing tl
  | _ => true
  end.

(** [calculate_audio_balance] as the tracking loop calls it, on NumPy
    integers. *)
Definition np_calculate_audio_balance
    : Balancer B64.float -> Z -> Z -> option B64.float :=
  @calculate_audio_balance B64.float Numpy64.

(** [float(1)] and [float(50)], the constants of [set_audio_balance]. *)
Definition b64_of_1 : B64.float := S754_finite false 4503599627370496 (-52).
Definition b64_of_50 : B64.float := S754_finite false 7036874417766400 (-47).

(** A float that is not negative: a NaN, or a zero, a finite float or an
    infinity with the sign bit clear. *)
Definition nonneg_or_nan (x : B64.float) : bool :=
  match x with
  | S754_zero false | S754_finite false _ _ | S754_infinity false
  | S754_nan => true
  | _ => false
  end.

(** A face whose center is at x = 420. *)
Definition face_at_420 : Box := (400, 100, 40, 40).

(** A face box whose center is at x = 0, and two passes on it: key c
    calibrates on it, the next pass maps it again. *)
Definition face_at_0 : Box := (0, 100, 1, 40).

Definition ticks_calibrate_at_0 : list (Tick B64.float) :=
  [mkTick [] true (Some [face_at_0]) (B64.of_Z 1) true ord_c None;
   mkTick [] true (Some [face_at_0]) (B64.of_Z 2) true 255 None].

(** A session on the system backend: the balance reads 29 when key c
    calibrates, then key q quits. *)
Definition b64_system : Balancer B64.float := toggle_audio_mode b64_default.

Definition tick_calibrate_29 : Tick B64.float :=
  mkTick [] true (Some [face_at_420]) (B64.of_Z 1) true ord_c (Some 29).

Definition tick_quit : Tick B64.float :=
  mkTick [] true (Some [face_at_420]) (B64.of_Z 1) true ord_q None.

(** One second of frames 0.01 s apart, a face in each. *)
Definition burst : list (Tick Q) :=
  map (fun k => mkTick [] true (Some [face_at_420])
                  (inject_Z k / 100)%Q true 255 None)
      (zrange 1 100).

(** ** More of the two front-ends *)

(** What the menu callbacks of [VekloMenubarApp] do to the outside
    world. *)
Inductive UiAction :=
| UiAlert                 (* rumps.alert *)
| UiNotify                (* rumps.notification *)
| UiStartThread           (* self.tracker_thread.start() *)
| UiRelease               (* self.cap.release() *)
| UiDestroyAllWindows     (* cv2.destroyAllWindows() *)
| UiDo (a : Action)       (* self.set_audio_balance(...) *)
| UiQuit.                 (* rumps.quit_application() *)

(** The fields of [VekloMenubarApp] the menu callbacks share with the
    tracking thread: [sh_cap] is [None] for [self.cap is None], else the
    capture object with what its [isOpened()] answers; [sh_button] is the
    title of the Start/Stop item. *)
Record Shell (F : Type) := mkShell {
  sh_app : Menubar.App F;
  sh_cap : option bool;
  sh_video_window : bool;
  sh_button : string
}.

Arguments mkShell {F}.
Arguments sh_app {F}.
Arguments sh_cap {F}.
Arguments sh_video_window {F}.
Arguments sh_button {F}.

Section MoreMethods.

Context {F : Type} `{PyFloat F}.

Definition app_set_running (b : bool) (st : Menubar.App F) : Menubar.App F :=
  Menubar.mkApp b (Menubar.sensitivity st) (Menubar.balance st)
    (Menubar.last_face_position st) (Menubar.last_balance_update st)
    (Menubar.update_frequency st).

(** [toggle_tracking]; [opens] is what [isOpened()] answers for a capture
    object created by this call.  A raising [set_audio_balance] leaves
    the rest of the stop branch undone. *)
Definition toggle_tracking (sh : Shell F) (opens : bool)
    : Shell F * list UiAction :=
  if negb (Menubar.running (sh_app sh)) then
    match sh_cap sh with
    | None =>
        if opens then
          (mkShell (app_set_running true (sh_app sh)) (Some true)
             (sh_video_window sh) "Stop Tracking",
           [UiStartThread; UiNotify])
        else
          (mkShell (app_set_running false (sh_app sh)) (Some false)
             (sh_video_window sh) "Start Tracking",
           [UiAlert])
    | Some _ =>
        (mkShell (app_set_running true (sh_app sh)) (sh_cap sh)
           (sh_video_window sh) "Stop Tracking",
         [UiStartThread; UiNotify])
    end
  else
    let released := match sh_cap sh with
                    | Some _ => [UiRelease]
                    | None => []
                    end in
    match Menubar.set_audio_balance (of_int 0) with
    | Some a =>
        (mkShell (app_set_running false (sh_app sh)) None false
           "Start Tracking",
         released ++ [UiDo a]
           ++ (if sh_video_window sh then [UiDestroyAllWindows] else [])
           ++ [UiNotify])
    | None =>
        (mkShell (app_set_running false (sh_app sh)) None
           (sh_video_window sh) "Start Tracking",
         released)
    end.

(** [quit_app]. *)
Definition quit_app (sh : Shell F) : Shell F * list UiAction :=
  if Menubar.running (sh_app sh) then
    let sh' := mkShell (app_set_running false (sh_app sh)) (sh_cap sh)
                 (sh_video_window sh) (sh_button sh) in
    let pre := match sh_cap sh with
               | Some _ => [UiRelease]
               | None => []
               end
               ++ (if sh_video_window sh then [UiDestroyAllWindows] else []) in
    match Menubar.set_audio_balance (of_int 0) with
    | Some a => (sh', pre ++ [UiDo a; UiQuit])
    | None => (sh', pre)
    end
  else (sh, [UiQuit]).

(** The three glyphs [update_menubar_title] puts after the V. *)
Definition indicator (balance : F) : string :=
  if flt balance (fneg (lit 6 10)) then "◀◀◀"
  else if flt balance (fneg (lit 3 10)) then "◀◀○"
  else if flt balance (fneg (lit 1 10)) then "◀○○"
  else if flt balance (lit 1 10) then "○○○"
  else if flt balance (lit 3 10) then "○○▶"
  else if flt balance (lit 6 10) then "○▶▶"
  else "▶▶▶".

(** [update_menubar_title]: the new [self.title], given the old one. *)
Definition update_menubar_title (st : Menubar.App F) (title : string)
    : string :=
  match Menubar.last_face_position st with
  | None => title
  | Some _ => String.append "V " (indicator (Menubar.balance st))
  end.

(** The balance meter's marker:
    [int(meter_x + (meter_width * (balance + 1) / 2))] with [meter_x = 50]
    and [meter_width = frame_width - 100]. *)
Definition indicator_pos (frame_width : Z) (balance : F) : option Z :=
  match fdiv (fmul (of_int (frame_width - 100)) (fadd balance (of_int 1)))
          (of_int 2) with
  | Some half => to_int (fadd (of_int 50) half)
  | None => None
  end.

End MoreMethods.

(** How the menubar thread's [track_head] stands: still in its loop, or
    returned after its [finally] block. *)
Inductive ThreadState (F : Type) :=
| ThreadRunning (st : Menubar.App F) (acts : list Action)
    (video_window : bool)
| ThreadEnded (st : Menubar.App F) (acts : list Action).

Arguments ThreadRunning {F}.
Arguments ThreadEnded {F}.

Section MenubarThread.

Context {F : Type} `{PyFloat F}.

(** Whether a pass gets as far as [cv2.imshow] (line 269), after which
    [self.video_window] is [True]: the loop condition, the camera and
    the image pipeline let it through and nothing raises before. *)
Definition pass_shows_window (st : Menubar.App F) (t : Menubar.Tick F)
    : bool :=
  let st := fold_left Menubar.ui_event (Menubar.t_events t) st in
  Menubar.running st && Menubar.t_opened t && Menubar.t_ret t &&
  match Menubar.t_faces t with
  | None => false
  | Some faces =>
      let '(st, acts) :=
        match face_center faces with
        | Some face_center_x => Menubar.update_balance st t face_center_x
        | None => (st, Some [])
        end in
      match acts with
      | None => false
      | Some _ =>
          match Menubar.last_face_position st with
          | Some _ => negb (Menubar.t_frame_width t =? 0)
          | None => true
          end
      end
  end.

(** [self.video_window] after a menu callback: Stop closes the window
    and clears the flag (after Quit the process ends). *)
Definition ui_video_window (video_window : bool) (e : Menubar.UiEvent F)
    : bool :=
  match e with
  | Menubar.StopTracking => false
  | _ => video_window
  end.

(** The [while] loop of the thread together with [self.video_window];
    the last boolean tells whether the loop was left. *)
Fixpoint menubar_thread_loop (video_window : bool) (st : Menubar.App F)
    (ticks : list (Menubar.Tick F))
    : Menubar.App F * list Action * bool * bool :=
  match ticks with
  | [] => (st, [], video_window, false)
  | t :: rest =>
      let video_window :=
        fold_left ui_video_window (Menubar.t_events t) video_window
        || pass_shows_window st t in
      match Menubar.loop_pass st t with
      | (st', acts, false) => (st', acts, video_window, true)
      | (st', acts, true) =>
          let '(st'', acts', video_window', ended) :=
            menubar_thread_loop video_window st' rest in
          (st'', acts ++ acts', video_window', ended)
      end
  end.

(** [self.video_window] when the loop is left or the passes run out. *)
Definition window_shown (video_window : bool) (st : Menubar.App F)
    (ticks : list (Menubar.Tick F)) : bool :=
  snd (fst (menubar_thread_loop video_window st ticks)).

(** [VekloMenubarApp.track_head]: the loop, then the [finally] block,
    which closes the window if one was shown (lines 280 to 283). *)
Definition menubar_track_head (video_window : bool) (st : Menubar.App F)
    (ticks : list (Menubar.Tick F)) : ThreadState F :=
  match menubar_thread_loop video_window st ticks with
  | (st', acts, video_window', true) =>
      ThreadEnded st'
        (acts ++ if video_window' then [DestroyAllWindows] else [])
  | (st', acts, video_window', false) =>
      ThreadRunning st' acts video_window'
  end.

End MenubarThread.

(** The number of camera releases in a trace. *)
Definition releases (acts : list Action) : nat :=
  List.length (filter (fun a => match a with CapRelease => true | _ => false end)
                 acts).

(** An actuator call with a percentage between 0 and 100. *)
Definition pct_in_bounds (a : Action) : Prop :=
  exists p, actuator_pct a = Some p /\ 0 <= p <= 100.

(** Sample passes: three lines typed at the terminal, the last a quit;
    a frame without a face; two passes of the menubar thread, the second
    ended by Esc; a pass of the menubar thread on a camera that never
    opened. *)
Definition tick_typed_quit : Tick Q :=
  mkTick [("s"%string, None); ("c"%string, Some 40); ("q"%string, None)]
    true (Some [face_at_420]) 1%Q true 255 None.

Definition tick_faceless : Tick Q :=
  mkTick [] true (Some []) 1%Q true ord_q None.

Definition menubar_ticks : list (Menubar.Tick Q) :=
  [Menubar.mkTick [] true true 640 (Some [face_at_420]) 1%Q (Some false) 255;
   Menubar.mkTick [] true true 640 (Some []) 2%Q None 27].

Definition menubar_dead_camera : Menubar.Tick B64.float :=
  Menubar.mkTick [] false false 0 None (B64.of_Z 1) None 255.

(** ** Exact rationals: order tests and the clamp *)

Local Open Scope Q_scope.

Lemma Qlt_bool_true (x y : Q) : Qlt_bool x y = true <-> x < y.
Proof.
  unfold Qlt_bool. rewrite negb_true_iff.
  split; intro E.
  - apply Qnot_le_lt. intro L. apply Qle_bool_iff in L. congruence.
  - destruct (Qle_bool y x) eqn:B; [|reflexivity].
    apply Qle_bool_iff in B. exfalso. apply (Qlt_not_le _ _ E B).
Qed.

Lemma Qlt_bool_false (x y : Q) : Qlt_bool x y = false <-> y <= x.
Proof.
  unfold Qlt_bool. rewrite negb_false_iff. apply Qle_bool_iff.
Qed.

Lemma Qeq_bool_false (x y : Q) : Qeq_bool x y = false <-> ~ x == y.
Proof.
  split.
  - intros E A. apply Qeq_bool_iff in A. congruence.
  - intro N. destruct (Qeq_bool x y) eqn:B; [|reflexivity].
    apply Qeq_bool_iff in B. contradiction.
Qed.

Lemma Qlt_bool_spec (x y : Q) : BoolSpec (x < y) (y <= x) (Qlt_bool x y).
Proof.
  destruct (Qlt_bool x y) eqn:E; constructor.
  - apply Qlt_bool_true, E.
  - apply Qlt_bool_false, E.
Qed.

Lemma clampQ_cases (lo hi x : Q) :
  lo < hi ->
  (x <= lo /\ clampQ lo hi x = lo) \/
  (hi <= x /\ clampQ lo hi x = hi) \/
  (lo < x < hi /\ clampQ lo hi x = x).
Proof.
  intro L. unfold clampQ, py_max, py_min. cbn [flt ExactQ].
  destruct (Qlt_bool_spec x hi).
  - destruct (Qlt_bool_spec lo x).
    + right; right. auto.
    + left. auto.
  - destruct (Qlt_bool_spec lo hi).
    + right; left. auto.
    + lra.
Qed.

Lemma neg_clamp_range (r : Q) : -1 <= - clampQ (-1) 1 r <= 1.
Proof.
  destruct (clampQ_cases (-1) 1 r) as [[_ E]|[[_ E]|[[L U] E]]];
    try reflexivity; rewrite E; lra.
Qed.

Lemma clampQ_mono (r1 r2 : Q) :
  r1 <= r2 -> clampQ (-1) 1 r1 <= clampQ (-1) 1 r2.
Proof.
  intro L.
  destruct (clampQ_cases (-1) 1 r1) as [[A1 E1]|[[A1 E1]|[[A1 B1] E1]]];
    try reflexivity;
  destruct (clampQ_cases (-1) 1 r2) as [[A2 E2]|[[A2 E2]|[[A2 B2] E2]]];
    try reflexivity; rewrite E1, E2; lra.
Qed.

Lemma clampQ_plateau (r1 r2 : Q) :
  r1 < r2 -> clampQ (-1) 1 r1 == clampQ (-1) 1 r2 ->
  (clampQ (-1) 1 r1 == -1 /\ r2 <= -1) \/ (clampQ (-1) 1 r1 == 1 /\ 1 <= r1).
Proof.
  intros L.
  destruct (clampQ_cases (-1) 1 r1) as [[A1 E1]|[[A1 E1]|[[A1 B1] E1]]];
    try reflexivity;
  destruct (clampQ_cases (-1) 1 r2) as [[A2 E2]|[[A2 E2]|[[A2 B2] E2]]];
    try reflexivity; rewrite E1, E2; intro E;
    try (exfalso; lra); [left | right]; split; (reflexivity || lra).
Qed.

(** ** The mapper over exact rationals *)

Lemma center_position_Q (st : Balancer Q) (w : Z) :
  center_position st w = Some (centerQ st w).
Proof.
  unfold center_position, centerQ.
  destruct (calibrated st), (calibration_center_x st); reflexivity.
Qed.

Lemma center_position_inv (st : Balancer Q) (w : Z) (c : Q) :
  center_position st w = Some c -> c = centerQ st w.
Proof. rewrite center_position_Q. congruence. Qed.

Lemma offset_from_center_Q (st : Balancer Q) (x w : Z) :
  offset_from_center st x w = Some (offsetQ st x w).
Proof.
  unfold offset_from_center, offsetQ.
  destruct (calibrated st), (calibration_center_x st); reflexivity.
Qed.

Lemma offsetQ_eq (st : Balancer Q) (x w : Z) :
  offsetQ st x w == inject_Z x - centerQ st w.
Proof.
  unfold offsetQ, centerQ.
  destruct (calibrated st), (calibration_center_x st); try reflexivity.
  unfold Zminus. rewrite inject_Z_plus, inject_Z_opp. reflexivity.
Qed.

Lemma calculate_audio_balance_Q (st : Balancer Q) (x w : Z) :
  calculate_audio_balance st x w =
  if Qeq_bool (centerQ st w * sensitivity st) 0 then None
  else Some (- clampQ (-1) 1 (rawQ st x w)).
Proof.
  unfold calculate_audio_balance, center_position, offset_from_center,
    rawQ, offsetQ, centerQ, clampQ.
  destruct (calibrated st), (calibration_center_x st);
    cbn [fdiv fmul fsub of_int ExactQ];
    change (Qeq_bool (inject_Z 2) 0) with false; cbn iota;
    destruct (Qeq_bool _ 0); reflexivity.
Qed.

Lemma calculate_defined (st : Balancer Q) (x w : Z) :
  ~ centerQ st w * sensitivity st == 0 ->
  calculate_audio_balance st x w = Some (- clampQ (-1) 1 (rawQ st x w)).
Proof.
  intro N. rewrite calculate_audio_balance_Q.
  apply Qeq_bool_false in N. rewrite N. reflexivity.
Qed.

Lemma calculate_inv (st : Balancer Q) (x w : Z) (b : Q) :
  calculate_audio_balance st x w = Some b ->
  b = - clampQ (-1) 1 (rawQ st x w).
Proof.
  rewrite calculate_audio_balance_Q.
  destruct (Qeq_bool _ 0); [discriminate | intros [= <-]; reflexivity].
Qed.

Lemma tracked_balance_inv (app : Menubar.App Q) (x w : Z) (b : Q) :
  Menubar.tracked_balance app x w = Some b ->
  exists raw, b = - clampQ (-1) 1 raw.
Proof.
  unfold Menubar.tracked_balance. cbn [fdiv fmul fsub of_int ExactQ].
  change (Qeq_bool (inject_Z 2) 0) with false. cbn iota.
  destruct (Qeq_bool _ 0); [discriminate |].
  intros [= <-]. eexists. reflexivity.
Qed.

Lemma rawQ_mono (st : Balancer Q) (w x1 x2 : Z) :
  0 < centerQ st w * sensitivity st -> (x1 <= x2)%Z ->
  rawQ st x1 w <= rawQ st x2 w.
Proof.
  intros D L. unfold rawQ, Qdiv.
  apply Qmult_le_compat_r.
  - rewrite !offsetQ_eq. rewrite Zle_Qle in L. lra.
  - apply Qlt_le_weak, Qinv_lt_0_compat, D.
Qed.

Lemma rawQ_strict (st : Balancer Q) (w x1 x2 : Z) :
  0 < centerQ st w * sensitivity st -> (x1 < x2)%Z ->
  rawQ st x1 w < rawQ st x2 w.
Proof.
  intros D L. unfold rawQ, Qdiv.
  apply Qmult_lt_compat_r.
  - apply Qinv_lt_0_compat, D.
  - rewrite !offsetQ_eq. rewrite Zlt_Qlt in L. lra.
Qed.

Lemma divisor_pos (c s : Q) : 0 < c -> sensitivity_in_range s -> 0 < c * s.
Proof.
  intros C [L _]. apply Qmult_lt_0_compat; lra.
Qed.

Lemma zero_center_raises (st : Balancer Q) (x w : Z) (c : Q) :
  center_position st w = Some c -> c == 0 ->
  calculate_audio_balance st x w = None.
Proof.
  intros C Z. apply center_position_inv in C. subst c.
  rewrite calculate_audio_balance_Q.
  assert (E : centerQ st w * sensitivity st == 0) by (rewrite Z; ring).
  apply Qeq_bool_iff in E. rewrite E. reflexivity.
Qed.

(** The mapper's result is the negated clamp of the quotient, in any
    arithmetic. *)
Lemma calculate_audio_balance_shape {F : Type} `{PyFloat F}
    (st : Balancer F) (x w : Z) (b : F) :
  calculate_audio_balance st x w = Some b ->
  exists center offset raw,
    center_position st w = Some center /\
    offset_from_center st x w = Some offset /\
    fdiv offset (fmul center (sensitivity st)) = Some raw /\
    b = fneg (py_max (fneg (lit 1 1)) (py_min (lit 1 1) raw)).
Proof.
  unfold calculate_audio_balance.
  destruct (center_position st w) as [center|]; [|discriminate].
  destruct (offset_from_center st x w) as [offset|]; [|discriminate].
  destruct (fdiv _ _) as [raw|] eqn:D; [|discriminate].
  intros [= <-]. exists center, offset, raw. auto.
Qed.

(** ** Binary64: comparisons and the clamp *)

Lemma b64_compare_opp (x y : B64.float) :
  SFcompare (SFopp x) (SFopp y) = SFcompare y x.
Proof.
  destruct x as [sx|sx| |sx mx ex], y as [sy|sy| |sy my ey];
    try destruct sx; try destruct sy; try reflexivity; cbn;
    rewrite (Z.compare_antisym ex ey);
    destruct (ex ?= ey)%Z; cbn; try reflexivity;
    rewrite Pos.compare_cont_antisym; reflexivity.
Qed.

Lemma b64_ltb_leb (x y : B64.float) :
  B64.ltb x y = true -> B64.leb x y = true.
Proof.
  unfold B64.ltb, B64.leb, SFltb, SFleb.
  destruct (SFcompare x y) as [[| |]|]; congruence.
Qed.

Lemma b64_leb_opp (x y : B64.float) :
  B64.leb x y = true -> B64.leb (B64.opp y) (B64.opp x) = true.
Proof.
  unfold B64.leb, B64.opp, SFleb. rewrite b64_compare_opp. auto.
Qed.

(** Python's clamp [max(lo, min(hi, x))] lands between [lo] and [hi] for
    every float [x], NaN and the infinities included. *)
Lemma b64_clamp_between (lo hi x : B64.float) :
  B64.leb lo hi = true -> B64.leb lo lo = true -> B64.leb hi hi = true ->
  b64_between lo hi (py_max lo (py_min hi x)).
Proof.
  intros LH LL HH. unfold py_max, py_min, b64_between. cbn [flt Binary64].
  destruct (B64.ltb x hi) eqn:A.
  - destruct (B64.ltb lo x) eqn:B.
    + split; apply b64_ltb_leb; assumption.
    + split; assumption.
  - destruct (B64.ltb lo hi) eqn:B; split; assumption.
Qed.

Lemma b64_neg_clamp_between (x : B64.float) :
  b64_between b64_minus_one b64_one
    (fneg (py_max (fneg (lit 1 1)) (py_min (lit 1 1) x))).
Proof.
  destruct (b64_clamp_between b64_minus_one b64_one x) as [A B];
    try reflexivity.
  split.
  - apply b64_leb_opp in B. exact B.
  - apply b64_leb_opp in A. exact A.
Qed.

Lemma b64_balance_between (st : Balancer B64.float) (x w : Z)
    (b : B64.float) :
  calculate_audio_balance st x w = Some b ->
  b64_between b64_minus_one b64_one b.
Proof.
  intro E. apply calculate_audio_balance_shape in E.
  destruct E as (center & offset & raw & _ & _ & _ & ->).
  apply b64_neg_clamp_between.
Qed.

Lemma b64_tracked_balance_between (app : Menubar.App B64.float) (x w : Z)
    (b : B64.float) :
  Menubar.tracked_balance app x w = Some b ->
  b64_between b64_minus_one b64_one b.
Proof.
  unfold Menubar.tracked_balance.
  destruct (fdiv (of_int w) (of_int 2)); [|discriminate].
  destruct (fdiv _ _); [|discriminate].
  intros [= <-]. apply b64_neg_clamp_between.
Qed.

Lemma b64_adjusted_sensitivity_between (st : Balancer B64.float)
    (delta : B64.float) :
  b64_between (B64.literal 2 10) (B64.literal 2 1)
    (sensitivity (adjust_sensitivity st delta)).
Proof.
  unfold adjust_sensitivity. cbn [sensitivity set_sensitivity].
  destruct (_ && _).
  - split; reflexivity.
  - apply b64_clamp_between; reflexivity.
Qed.

(** Bounded checks of the mapper in binary64, frame width 640: the
    balance does not increase from one pixel column to the next, before
    and after calibrating at 420; and a face at the calibrated column
    reads zero for every column from 1 to 4096. *)
Lemma b64_monotone_check :
  b64_non_increasing
    (map (b64_balance_at b64_default 640) (zrange 0 641)) = true /\
  b64_non_increasing
    (map (b64_balance_at (calibrate b64_default (Some 420%Z) None) 640)
       (zrange 0 641)) = true.
Proof. split; vm_compute; reflexivity. Qed.

Lemma b64_calibrated_zero_check :
  forallb (fun x =>
             B64.eqb
               (b64_balance_at (calibrate b64_default (Some x) None) 640 x)
               (B64.of_Z 0))
    (zrange 1 4096) = true.
Proof. vm_compute. reflexivity. Qed.

(** ** The balance mapper *)

(** C1: whenever [calculate_audio_balance] returns, the value lies in the
    closed interval from -1 to 1; it is the negation of the clamped
    quotient (the clamp comes before the sign inversion); both bounds are
    attained.  The same holds for the inline mapper of the menubar loop,
    and in binary64 for every float, NaN and infinities included. *)
Theorem balance_in_unit_interval :
  (forall (st : Balancer Q) (x w : Z) (b : Q),
      calculate_audio_balance st x w = Some b ->
      (exists center offset raw,
          center_position st w = Some center /\
          offset_from_center st x w = Some offset /\
          fdiv offset (fmul center (sensitivity st)) = Some raw /\
          b = - py_max (- (1)) (py_min 1 raw)) /\
      -1 <= b <= 1) /\
  (forall (app : Menubar.App Q) (x w : Z) (b : Q),
      Menubar.tracked_balance app x w = Some b -> -1 <= b <= 1) /\
  (exists b, calculate_audio_balance q_default 0 640 = Some b /\ b == 1) /\
  (exists b, calculate_audio_balance q_default 640 640 = Some b /\ b == -1) /\
  (forall (st : Balancer B64.float) (x w : Z) (b : B64.float),
      calculate_audio_balance st x w = Some b ->
      b64_between b64_minus_one b64_one b) /\
  (forall (app : Menubar.App B64.float) (x w : Z) (b : B64.float),
      Menubar.tracked_balance app x w = Some b ->
      b64_between b64_minus_one b64_one b).
Proof.
  split; [|split; [|split; [|split; [|split]]]].
  - intros st x w b E. split.
    + exact (calculate_audio_balance_shape st x w b E).
    + apply calculate_inv in E. subst b. apply neg_clamp_range.
  - intros app x w b E. apply tracked_balance_inv in E as [raw ->].
    apply neg_clamp_range.
  - eexists. split; [vm_compute; reflexivity | reflexivity].
  - eexists. split; [vm_compute; reflexivity | reflexivity].
  - exact b64_balance_between.
  - exact b64_tracked_balance_between.
Qed.

Lemma balance_in_unit_interval_witness :
  -1 <= - (4000 # 10240) <= 1.
Proof.
  exact (proj2 (proj1 balance_in_unit_interval q_default 420%Z 640%Z
                  (- (4000 # 10240)) eq_refl)).
Defined.

(** C7: for a fixed state with a positive center and a sensitivity in
    range, the balance does not increase with the face position; two
    different positions give the same balance only on a plateau of the
    clamp, at 1 or at -1. *)
Theorem balance_monotone (st : Balancer Q) (w x1 x2 : Z) (c : Q) :
  center_position st w = Some c -> 0 < c ->
  sensitivity_in_range (sensitivity st) ->
  (x1 <= x2)%Z ->
  exists b1 b2,
    calculate_audio_balance st x1 w = Some b1 /\
    calculate_audio_balance st x2 w = Some b2 /\
    b2 <= b1 /\
    ((x1 < x2)%Z -> b1 == b2 ->
     (b1 == 1 /\ b2 == 1) \/ (b1 == -1 /\ b2 == -1)).
Proof.
  intros C P S L. apply center_position_inv in C. subst c.
  pose proof (divisor_pos _ _ P S) as D.
  assert (N : ~ centerQ st w * sensitivity st == 0) by lra.
  exists (- clampQ (-1) 1 (rawQ st x1 w)), (- clampQ (-1) 1 (rawQ st x2 w)).
  rewrite !calculate_defined by exact N.
  split; [reflexivity | split; [reflexivity | split]].
  - apply Qopp_le_compat, clampQ_mono, rawQ_mono; assumption.
  - intros LT E.
    assert (E' : clampQ (-1) 1 (rawQ st x1 w) == clampQ (-1) 1 (rawQ st x2 w))
      by lra.
    destruct (clampQ_plateau _ _ (rawQ_strict st w x1 x2 D LT) E')
      as [[A _]|[A _]].
    + left. split; lra.
    + right. split; lra.
Qed.

Lemma balance_monotone_witness :
  exists b1 b2,
    calculate_audio_balance q_default 100 640 = Some b1 /\
    calculate_audio_balance q_default 420 640 = Some b2 /\
    b2 <= b1 /\
    ((100 < 420)%Z -> b1 == b2 ->
     (b1 == 1 /\ b2 == 1) \/ (b1 == -1 /\ b2 == -1)).
Proof.
  apply (balance_monotone q_default 640 100 420 (inject_Z 640 / inject_Z 2)).
  - reflexivity.
  - reflexivity.
  - split; discriminate.
  - discriminate.
Defined.

(** C8: [calibrate(x)] sets [calibrated] and the center and leaves the
    sensitivity alone; in any state calibrated at a positive [x], with a
    sensitivity in range, a face at exactly [x] maps to balance 0. *)
Theorem calibrated_position_is_balanced :
  (forall (st : Balancer Q) (x : Z) (reply : option Z),
      let st' := calibrate st (Some x) reply in
      calibrated st' = true /\ calibration_center_x st' = Some x /\
      sensitivity st' = sensitivity st) /\
  (forall (st : Balancer Q) (x w : Z),
      calibrated st = true -> calibration_center_x st = Some x ->
      (0 < x)%Z -> sensitivity_in_range (sensitivity st) ->
      exists b, calculate_audio_balance st x w = Some b /\ b == 0).
Proof.
  split.
  - intros st x reply. cbn. auto.
  - intros st x w C X P S.
    assert (EC : centerQ st w = inject_Z x)
      by (unfold centerQ; rewrite C, X; reflexivity).
    assert (D : 0 < centerQ st w * sensitivity st).
    { apply divisor_pos; [|exact S]. rewrite EC.
      change 0 with (inject_Z 0). rewrite <- Zlt_Qlt. exact P. }
    assert (N : ~ centerQ st w * sensitivity st == 0) by lra.
    eexists. split; [apply calculate_defined, N|].
    assert (R : rawQ st x w == 0).
    { unfold rawQ. rewrite offsetQ_eq, EC.
      unfold Qdiv. setoid_replace (inject_Z x - inject_Z x) with 0 by ring.
      apply Qmult_0_l. }
    destruct (clampQ_cases (-1) 1 (rawQ st x w)) as [[A E]|[[A E]|[[A B] E]]];
      try reflexivity; rewrite E; lra.
Qed.

Lemma calibrated_position_is_balanced_witness :
  exists b,
    calculate_audio_balance (calibrate q_default (Some 420%Z) None) 420 640
      = Some b /\ b == 0.
Proof.
  apply (proj2 calibrated_position_is_balanced
           (calibrate q_default (Some 420%Z) None) 420%Z 640%Z).
  - reflexivity.
  - reflexivity.
  - reflexivity.
  - split; discriminate.
Defined.

(** C9: the two scenarios with the default sensitivity 0.8 and frame
    width 640.  Uncalibrated, face at 420: center 320, offset 100,
    quotient 0.390625, balance -0.390625.  Calibrated at 420, face at
    520: center 420, offset 100, balance -125/420.  In binary64 the first
    balance is the float -0.390625 itself and the second is within
    2^-55 of -125/420. *)
Theorem scenario_balances :
  (exists center offset b,
      center_position q_default 640 = Some center /\ center == 320 /\
      offset_from_center q_default 420 640 = Some offset /\ offset == 100 /\
      offset / (center * sensitivity q_default) == 390625 # 1000000 /\
      calculate_audio_balance q_default 420 640 = Some b /\
      b == - (390625 # 1000000)) /\
  (exists center offset b,
      let st := calibrate q_default (Some 420%Z) None in
      center_position st 640 = Some center /\ center == 420 /\
      offset_from_center st 520 640 = Some offset /\ offset == 100 /\
      calculate_audio_balance st 520 640 = Some b /\
      b == - (100 / (420 * (8 # 10))) /\ b == - (125 # 420)) /\
  (exists b,
      calculate_audio_balance b64_default 420 640 = Some b /\
      B64.to_Q b == - (390625 # 1000000)) /\
  (exists b,
      calculate_audio_balance (calibrate b64_default (Some 420%Z) None) 520 640
        = Some b /\
      Qabs (B64.to_Q b - - (125 # 420)) <= 1 # (2 ^ 55)).
Proof.
  split; [|split; [|split]].
  - do 3 eexists. repeat split; try (vm_compute; reflexivity); reflexivity.
  - do 3 eexists. repeat split; try (vm_compute; reflexivity); reflexivity.
  - eexists. split; [vm_compute; reflexivity | vm_compute; reflexivity].
  - eexists. split; [vm_compute; reflexivity | vm_compute; discriminate].
Qed.

(** *** The same call on NumPy integers *)

Lemma of_Z_nonneg (x : Z) : (0 <= x)%Z -> nonneg_or_nan (B64.of_Z x) = true.
Proof.
  intros Hx. destruct x as [|p|p]; [reflexivity| |lia].
  unfold B64.of_Z, binary_normalize, binary_round.
  destruct (shl_align _ _ _) as [mz ez].
  unfold binary_round_aux.
  destruct (shr_fexp _ _ _ _ _) as [mrs' e'].
  destruct (shr_fexp _ _ _ _ _) as [mrs'' e''].
  destruct (shr_m mrs''); try reflexivity.
  destruct (_ <=? _)%Z; reflexivity.
Qed.

(** A dividend that is not negative over a zero divisor: the quotient is
    an infinity or a NaN, and the clamp and the inversion turn either
    into -1. *)
Lemma np_zero_divisor (offset : B64.float) :
  nonneg_or_nan offset = true ->
  B64.opp
    (py_max (B64.opp (B64.literal 1 1))
       (py_min (B64.literal 1 1)
          (SFdiv B64.prec B64.emax offset (S754_zero false))))
  = b64_minus_one.
Proof.
  destruct offset as [[|]|[|]| |[|] m e]; try discriminate; intros _;
    vm_compute; reflexivity.
Qed.

Lemma b64_in_range_finite (s : B64.float) :
  b64_between (B64.literal 2 10) (B64.literal 2 1) s ->
  exists m e, s = S754_finite false m e.
Proof.
  intros [L U].
  destruct s as [[|]|[|]| |[|] m e]; try discriminate L; try discriminate U.
  eauto.
Qed.

Lemma np_total (st : Balancer B64.float) (x w : Z) :
  exists b, np_calculate_audio_balance st x w = Some b /\
            b64_between b64_minus_one b64_one b.
Proof.
  unfold np_calculate_audio_balance, calculate_audio_balance, center_position,
    offset_from_center.
  cbn [fdiv Numpy64 np_div].
  destruct (calibrated st), (calibration_center_x st); eexists;
    (split; [reflexivity|]); apply b64_neg_clamp_between.
Qed.

Lemma np_calibrated_zero (st : Balancer B64.float) (x w : Z) :
  calibrated st = true -> calibration_center_x st = Some 0%Z ->
  b64_between (B64.literal 2 10) (B64.literal 2 1) (sensitivity st) ->
  (0 <= x)%Z ->
  np_calculate_audio_balance st x w = Some b64_minus_one.
Proof.
  intros C X S Hx. destruct (b64_in_range_finite _ S) as (m & e & E).
  unfold np_calculate_audio_balance, calculate_audio_balance, center_position,
    offset_from_center.
  rewrite C, X, E. cbn [fdiv fmul of_int Numpy64 np_div].
  rewrite Z.sub_0_r.
  change (B64.mul (B64.of_Z 0) (S754_finite false m e)) with (S754_zero false).
  f_equal. apply np_zero_divisor. now apply of_Z_nonneg.
Qed.

Lemma np_width_zero (st : Balancer B64.float) (x : Z) :
  calibrated st = false ->
  b64_between (B64.literal 2 10) (B64.literal 2 1) (sensitivity st) ->
  (0 <= x)%Z ->
  np_calculate_audio_balance st x 0 = Some b64_minus_one.
Proof.
  intros C S Hx. destruct (b64_in_range_finite _ S) as (m & e & E).
  unfold np_calculate_audio_balance, calculate_audio_balance, center_position,
    offset_from_center.
  rewrite C, E. cbn [fdiv fmul fsub of_int Numpy64 np_div].
  change (SFdiv B64.prec B64.emax (B64.of_Z 0) (B64.of_Z 2))
    with (S754_zero false).
  change (B64.mul (S754_zero false) (S754_finite false m e))
    with (S754_zero false).
  f_equal. apply np_zero_divisor.
  pose proof (of_Z_nonneg x Hx) as N.
  destruct (B64.of_Z x) as [[|]|[|]| |[|] m' e']; try discriminate N;
    reflexivity.
Qed.

Lemma b64_div_value (x y r : B64.float) :
  B64.div x y = Some r -> r = SFdiv B64.prec B64.emax x y.
Proof. unfold B64.div. destruct y; congruence. Qed.

(** Where Python's division returns, NumPy's returns the same float. *)
Lemma np_agrees (st : Balancer B64.float) (x w : Z) (b : B64.float) :
  calculate_audio_balance st x w = Some b ->
  np_calculate_audio_balance st x w = Some b.
Proof.
  unfold np_calculate_audio_balance, calculate_audio_balance, center_position,
    offset_from_center.
  cbn [fdiv fmul fsub fneg lit of_int Numpy64 Binary64].
  change (B64.div (B64.of_Z w) (B64.of_Z 2))
    with (np_div (B64.of_Z w) (B64.of_Z 2)).
  destruct (calibrated st), (calibration_center_x st); cbn [np_div];
    match goal with
    | |- context [B64.div ?a ?d] =>
        destruct (B64.div a d) as [r|] eqn:D; [|discriminate];
        apply b64_div_value in D; subst r
    end; exact (fun h => h).
Qed.

(** C10, as stated, fails on the calls the program makes: calibrated at
    a face center of 0 the effective center is 0; a direct call with
    Python ints raises, but the call on NumPy integers returns -1.  In
    the loop, key c on a face centered at 0 is followed by a second
    actuator call, with percentage 0, and the loop goes on; with Python's
    division the same passes would end in an exception. *)
Lemma zero_center_call_returns :
  let st := calibrate b64_default (Some 0%Z) None in
  center_position st 640 = Some (B64.of_Z 0) /\
  calculate_audio_balance st 15 640 = None /\
  np_calculate_audio_balance st 15 640 = Some b64_minus_one /\
  np_calculate_audio_balance st 15 640 <> None /\
  snd (fst (@run_loop _ Numpy64 640 b64_default ticks_calibrate_at_0))
    = [SetEqmacBalance 100; SetEqmacBalance 0] /\
  snd (@run_loop _ Numpy64 640 b64_default ticks_calibrate_at_0) = None /\
  snd (fst (@run_loop _ Binary64 640 b64_default ticks_calibrate_at_0))
    = [SetEqmacBalance 100] /\
  snd (@run_loop _ Binary64 640 b64_default ticks_calibrate_at_0)
    = Some Raised.
Proof.
  cbv zeta. repeat split; try (vm_compute; reflexivity).
  vm_compute. discriminate.
Qed.

(** C10: the division is unguarded.  Called with Python ints, an
    effective center of zero makes the call raise, as after
    [calibrate(0)] or uncalibrated on a frame of width 0 (in binary64 as
    well), and with a non-zero center and a sensitivity in range it
    returns.  Called with NumPy integers, as the loop calls it, it
    always returns a float between -1 and 1: for an effective center of
    zero, a face position that is not negative and a sensitivity in
    range that float is -1; wherever the call with Python ints returns,
    it returns the same float. *)
Theorem division_is_unguarded :
  (forall (st : Balancer Q) (x w : Z) (c : Q),
      center_position st w = Some c -> c == 0 ->
      calculate_audio_balance st x w = None) /\
  (forall (st : Balancer Q) (x w : Z) (c : Q),
      center_position st w = Some c -> ~ c == 0 ->
      sensitivity_in_range (sensitivity st) ->
      exists b, calculate_audio_balance st x w = Some b) /\
  (forall (st : Balancer Q) (reply : option Z) (x w : Z),
      calculate_audio_balance (calibrate st (Some 0%Z) reply) x w = None) /\
  (forall (st : Balancer Q) (x : Z),
      calibrated st = false -> calculate_audio_balance st x 0 = None) /\
  (forall (reply : option Z) (x w : Z),
      calculate_audio_balance (calibrate b64_default (Some 0%Z) reply) x w
        = None) /\
  (forall x : Z, calculate_audio_balance b64_default x 0 = None) /\
  (forall (st : Balancer B64.float) (x w : Z),
      exists b, np_calculate_audio_balance st x w = Some b /\
                b64_between b64_minus_one b64_one b) /\
  (forall (st : Balancer B64.float) (reply : option Z) (x w : Z),
      b64_between (B64.literal 2 10) (B64.literal 2 1) (sensitivity st) ->
      (0 <= x)%Z ->
      np_calculate_audio_balance (calibrate st (Some 0%Z) reply) x w
        = Some b64_minus_one) /\
  (forall (st : Balancer B64.float) (x : Z),
      calibrated st = false ->
      b64_between (B64.literal 2 10) (B64.literal 2 1) (sensitivity st) ->
      (0 <= x)%Z ->
      np_calculate_audio_balance st x 0 = Some b64_minus_one) /\
  (forall (st : Balancer B64.float) (x w : Z) (b : B64.float),
      calculate_audio_balance st x w = Some b ->
      np_calculate_audio_balance st x w = Some b).
Proof.
  split; [|split; [|split; [|split; [|split; [|split; [|split; [|split;
    [|split]]]]]]]].
  - apply zero_center_raises.
  - intros st x w c C N [L _]. apply center_position_inv in C. subst c.
    eexists. apply calculate_defined. intro E.
    apply Qmult_integral in E. destruct E as [E|E]; [contradiction | lra].
  - intros st reply x w.
    apply (zero_center_raises _ x w (inject_Z 0)); reflexivity.
  - intros st x U.
    apply (zero_center_raises _ x 0%Z (inject_Z 0 / inject_Z 2)).
    + unfold center_position. rewrite U. reflexivity.
    + reflexivity.
  - intros reply x w. reflexivity.
  - intros x. reflexivity.
  - apply np_total.
  - intros st reply x w S Hx. apply np_calibrated_zero; try assumption;
      reflexivity.
  - intros st x C S Hx. now apply np_width_zero.
  - apply np_agrees.
Qed.

Lemma division_is_unguarded_witness :
  calculate_audio_balance (calibrate q_default (Some 0%Z) None) 5 640 = None /\
  (exists b, calculate_audio_balance q_default 420 640 = Some b) /\
  np_calculate_audio_balance (calibrate b64_default (Some 0%Z) None) 5 640
    = Some b64_minus_one /\
  np_calculate_audio_balance b64_default 420 640
    = calculate_audio_balance b64_default 420 640.
Proof.
  pose proof division_is_unguarded
    as (P1 & P2 & _ & _ & _ & _ & _ & P8 & _ & P10).
  split; [|split; [|split]].
  - apply (P1 (calibrate q_default (Some 0%Z) None) 5%Z 640%Z (inject_Z 0)).
    + reflexivity.
    + reflexivity.
  - apply (P2 q_default 420%Z 640%Z (inject_Z 640 / inject_Z 2)).
    + reflexivity.
    + discriminate.
    + split; discriminate.
  - apply (P8 b64_default None 5%Z 640%Z).
    + split; vm_compute; reflexivity.
    + discriminate.
  - destruct (calculate_audio_balance b64_default 420 640) as [b|] eqn:E.
    + apply (P10 b64_default 420%Z 640%Z b E).
    + vm_compute in E. discriminate E.
Defined.

(** ** Sensitivity *)



(** The default increment from 1.9 reaches 2.0 and wraps to 0.2, in both
    arithmetics; from 2.0 a decrement of 5 stops at the floor. *)
Lemma adjust_sensitivity_examples :
  sensitivity (adjust_sensitivity (set_sensitivity (19 # 10) q_default)
                 (1 # 10)) = 2 # 10 /\
  sensitivity (adjust_sensitivity (set_sensitivity 2 q_default) (- (5)))
    = 2 # 10 /\
  sensitivity (adjust_sensitivity
                 (set_sensitivity (B64.literal 19 10) b64_default)
                 (B64.literal 1 10)) = B64.literal 2 10.
Proof. repeat split; vm_compute; reflexivity. Qed.

(** ** Binary64 rounding

    What the percentage needs from round-to-nearest: a sum or a product
    of bounded operands is a zero or a finite float of the expected
    sign, whose value exceeds the exact one by at most a power of two
    far below 1. *)

Local Open Scope Z_scope.

Lemma digits2_pos_bounds (p : positive) :
  2 ^ (Zpos (digits2_pos p) - 1) <= Zpos p < 2 ^ Zpos (digits2_pos p).
Proof.
  induction p as [p IH|p IH|]; cbn [digits2_pos];
    [rewrite Pos2Z.inj_succ; change (Zpos p~1) with (2 * Zpos p + 1)
    |rewrite Pos2Z.inj_succ; change (Zpos p~0) with (2 * Zpos p)
    |cbn; lia];
    replace (Z.succ (Zpos (digits2_pos p)) - 1)
      with (Z.succ (Zpos (digits2_pos p) - 1)) by lia;
    rewrite !Z.pow_succ_r by lia; lia.
Qed.

Lemma Zdigits2_upper (m k : Z) :
  0 <= m < 2 ^ k -> 0 <= k -> Zdigits2 m <= k.
Proof.
  intros [L U] K. destruct m as [|p|p]; [exact K| |lia].
  cbn [Zdigits2]. pose proof (digits2_pos_bounds p) as [D _].
  assert (2 ^ (Zpos (digits2_pos p) - 1) < 2 ^ k) as P by lia.
  apply Z.pow_lt_mono_r_iff in P; lia.
Qed.

Lemma shift_left_value (m d : positive) :
  Zpos (Pos.iter xO m d) = Zpos m * 2 ^ Zpos d.
Proof.
  change (Pos.iter xO m d) with (shift_pos d m).
  rewrite shift_pos_correct. change (Zpower_pos 2 d) with (2 ^ Zpos d). lia.
Qed.

Lemma shr_1_half (mrs : shr_record) :
  0 <= shr_m mrs -> shr_m (shr_1 mrs) = shr_m mrs / 2.
Proof.
  rewrite <- Z.div2_div. destruct mrs as [m r s]. cbn [shr_m].
  destruct m as [|[p|p|]|p]; intros; try reflexivity; lia.
Qed.

Lemma shr_m_iter_pos (p : positive) :
  forall mrs : shr_record,
    0 <= shr_m mrs ->
    shr_m (iter_pos shr_1 p mrs) = shr_m mrs / 2 ^ Zpos p.
Proof.
  assert (P : forall k, 0 <= k -> 0 < 2 ^ k) by (intros; apply Z.pow_pos_nonneg; lia).
  induction p as [p IH|p IH|]; intros mrs M; cbn [iter_pos].
  - assert (M1 : 0 <= shr_m (shr_1 mrs)).
    { rewrite shr_1_half by exact M. apply Z.div_pos; lia. }
    assert (M2 : 0 <= shr_m (iter_pos shr_1 p (shr_1 mrs))).
    { rewrite IH by exact M1. apply Z.div_pos; [exact M1|apply P; lia]. }
    rewrite IH, IH, shr_1_half by assumption.
    pose proof (P (Zpos p) ltac:(lia)).
    rewrite !Z.div_div by lia.
    change (Zpos p~1) with (2 * Zpos p + 1).
    replace (2 * Zpos p + 1) with (1 + Zpos p + Zpos p) by lia.
    rewrite !Z.pow_add_r by lia. f_equal. change (2 ^ 1) with 2. lia.
  - assert (M2 : 0 <= shr_m (iter_pos shr_1 p mrs)).
    { rewrite IH by exact M. apply Z.div_pos; [exact M|apply P; lia]. }
    rewrite IH, IH by assumption.
    pose proof (P (Zpos p) ltac:(lia)).
    rewrite !Z.div_div by lia.
    change (Zpos p~0) with (2 * Zpos p).
    replace (2 * Zpos p) with (Zpos p + Zpos p) by lia.
    rewrite !Z.pow_add_r by lia. reflexivity.
  - apply shr_1_half. exact M.
Qed.

Lemma shr_record_of_loc_m (m : Z) (l : location) :
  shr_m (shr_record_of_loc m l) = m.
Proof. destruct l as [|[| |]]; reflexivity. Qed.

(** [shr_fexp]: the exponent moves up to the format's exponent for the
    magnitude, the mantissa loses as many low bits. *)
Lemma shr_fexp_spec (m e : Z) (l : location) :
  0 <= m ->
  let e' := Z.max e (fexp B64.prec B64.emax (Zdigits2 m + e)) in
  snd (shr_fexp B64.prec B64.emax m e l) = e' /\
  shr_m (fst (shr_fexp B64.prec B64.emax m e l)) = m / 2 ^ (e' - e).
Proof.
  intros M e'. unfold shr_fexp, shr. subst e'.
  set (f := fexp B64.prec B64.emax (Zdigits2 m + e)).
  destruct (f - e) as [|p|p] eqn:N; cbn [fst snd].
  - rewrite Z.max_l by lia. rewrite Z.sub_diag, Z.pow_0_r, Z.div_1_r.
    split; [reflexivity|apply shr_record_of_loc_m].
  - rewrite Z.max_r by lia. replace (f - e) with (Zpos p).
    split; [lia|].
    rewrite shr_m_iter_pos; rewrite shr_record_of_loc_m; [reflexivity|exact M].
  - rewrite Z.max_l by lia. rewrite Z.sub_diag, Z.pow_0_r, Z.div_1_r.
    split; [reflexivity|apply shr_record_of_loc_m].
Qed.

Lemma round_nearest_even_bounds (m : Z) (l : location) :
  m <= round_nearest_even m l <= m + 1.
Proof.
  destruct l as [|[| |]]; cbn [round_nearest_even]; try lia.
  destruct (Z.even m); lia.
Qed.

Local Open Scope Q_scope.

Lemma pow2_pos (e : Z) : 0 < 2 ^ e.
Proof. apply Qpower_0_lt. reflexivity. Qed.

Lemma pow2_add (a b : Z) : 2 ^ (a + b) == 2 ^ a * 2 ^ b.
Proof. apply Qpower_plus. discriminate. Qed.

Lemma pow2_le (a b : Z) : (a <= b)%Z -> 2 ^ a <= 2 ^ b.
Proof. intros L. apply Qpower_le_compat_l; [exact L|discriminate]. Qed.

Lemma pow2_inject (n : Z) : (0 <= n)%Z -> inject_Z (2 ^ n) == 2 ^ n.
Proof. intros N. apply (Zpower_Qpower 2 n N). Qed.

(** Dropping low bits never raises the value. *)
Lemma shifted_value (m e n : Z) :
  (0 <= m)%Z -> (0 <= n)%Z ->
  inject_Z (m / 2 ^ n) * 2 ^ (e + n) <= inject_Z m * 2 ^ e.
Proof.
  intros M N.
  assert (P : (0 < 2 ^ n)%Z) by (apply Z.pow_pos_nonneg; lia).
  pose proof (Z.mul_div_le m (2 ^ n) P) as D.
  rewrite Zle_Qle, inject_Z_mult, pow2_inject in D by exact N.
  rewrite pow2_add.
  pose proof (pow2_pos e). pose proof (pow2_pos n).
  setoid_replace (inject_Z (m / 2 ^ n) * (2 ^ e * 2 ^ n))
    with (2 ^ n * inject_Z (m / 2 ^ n) * 2 ^ e) by ring.
  apply Qmult_le_compat_r; [exact D|apply Qlt_le_weak; assumption].
Qed.

(** A mantissa below a power of two, as integers. *)
Lemma value_bound_Z (m e K : Z) :
  (e <= K)%Z -> inject_Z m * 2 ^ e <= 2 ^ K -> (m <= 2 ^ (K - e))%Z.
Proof.
  intros L V. rewrite Zle_Qle, pow2_inject by lia.
  replace (K - e)%Z with (K + - e)%Z by lia. rewrite pow2_add.
  pose proof (pow2_pos e) as P.
  assert (E : 2 ^ e * 2 ^ (- e) == 1).
  { rewrite <- pow2_add. replace (e + - e)%Z with 0%Z by lia. reflexivity. }
  pose proof (pow2_pos (- e)) as P'.
  setoid_replace (inject_Z m) with (inject_Z m * 2 ^ e * 2 ^ (- e)).
  - apply Qmult_le_compat_r; [exact V|apply Qlt_le_weak; exact P'].
  - rewrite <- Qmult_assoc, E. ring.
Qed.

Lemma fexp_le (z B : Z) :
  (z - 53 <= B)%Z -> (-1074 <= B)%Z -> (fexp B64.prec B64.emax z <= B)%Z.
Proof. unfold fexp, emin, B64.prec, B64.emax. lia. Qed.

(** Rounding a positive mantissa whose value is at most [2 ^ K]: the
    result is a zero or a finite float of the same sign, its exponent is
    at most [B], and its value exceeds the exact one by at most
    [2 ^ B]. *)
Lemma binary_round_aux_bound (sx : bool) (mz : positive) (ez K B : Z) :
  inject_Z (Zpos mz) * 2 ^ ez <= 2 ^ K ->
  (ez <= B)%Z -> (K - 51 <= B)%Z -> (-1074 <= B)%Z -> (B <= K)%Z ->
  (B <= 971)%Z ->
  binary_round_aux B64.prec B64.emax sx (Zpos mz) ez loc_Exact = S754_zero sx \/
  exists m e,
    binary_round_aux B64.prec B64.emax sx (Zpos mz) ez loc_Exact
      = S754_finite sx m e /\
    (e <= B)%Z /\
    inject_Z (Zpos m) * 2 ^ e <= inject_Z (Zpos mz) * 2 ^ ez + 2 ^ B.
Proof.
  intros V HB1 HB2 HB3 HB4 HB5.
  unfold binary_round_aux.
  destruct (shr_fexp_spec (Zpos mz) ez loc_Exact ltac:(lia)) as [E1 M1].
  destruct (shr_fexp B64.prec B64.emax (Zpos mz) ez loc_Exact) as [mrs' e'].
  cbn [fst snd] in E1, M1. rewrite <- E1 in M1.
  pose proof (round_nearest_even_bounds (shr_m mrs') (loc_of_shr_record mrs'))
    as R.
  set (m1 := round_nearest_even (shr_m mrs') (loc_of_shr_record mrs')) in *.
  (* exponents *)
  assert (Mz : (Zpos mz <= 2 ^ (K - ez))%Z) by (apply value_bound_Z; [lia|exact V]).
  assert (D : (Zdigits2 (Zpos mz) + ez <= K + 1)%Z).
  { cbn [Zdigits2]. pose proof (digits2_pos_bounds mz) as [L _].
    assert (P : (2 ^ (Zpos (digits2_pos mz) - 1) <= 2 ^ (K - ez))%Z) by lia.
    apply Z.pow_le_mono_r_iff in P; lia. }
  assert (E1' : (ez <= e' <= B)%Z).
  { rewrite E1. split; [lia|]. apply Z.max_lub; [exact HB1|].
    apply fexp_le; lia. }
  assert (P1 : (0 < 2 ^ (e' - ez))%Z) by (apply Z.pow_pos_nonneg; lia).
  assert (M1n : (0 <= shr_m mrs')%Z).
  { rewrite M1. apply Z.div_pos; lia. }
  assert (M1u : (shr_m mrs' <= 2 ^ (K - e'))%Z).
  { rewrite M1. apply Z.div_le_upper_bound; [exact P1|].
    rewrite <- Z.pow_add_r by lia.
    replace (e' - ez + (K - e'))%Z with (K - ez)%Z by lia. exact Mz. }
  assert (m1n : (0 <= m1)%Z) by lia.
  destruct (shr_fexp_spec m1 e' loc_Exact m1n) as [E2 M2].
  destruct (shr_fexp B64.prec B64.emax m1 e' loc_Exact) as [mrs'' e''].
  cbn [fst snd] in E2, M2. rewrite <- E2 in M2.
  assert (D1 : (Zdigits2 m1 + e' <= K + 2)%Z).
  { assert (Zdigits2 m1 <= K - e' + 2)%Z; [|lia].
    apply Zdigits2_upper; [|lia]. split; [exact m1n|].
    replace (K - e' + 2)%Z with (2 + (K - e'))%Z by lia.
    rewrite Z.pow_add_r by lia. change (2 ^ 2)%Z with 4%Z.
    assert (0 < 2 ^ (K - e'))%Z by (apply Z.pow_pos_nonneg; lia). lia. }
  assert (E2' : (e' <= e'' <= B)%Z).
  { rewrite E2. split; [lia|]. apply Z.max_lub; [lia|].
    apply fexp_le; lia. }
  assert (P2 : (0 < 2 ^ (e'' - e'))%Z) by (apply Z.pow_pos_nonneg; lia).
  assert (M2n : (0 <= shr_m mrs'')%Z).
  { rewrite M2. apply Z.div_pos; lia. }
  (* values *)
  assert (V2 : inject_Z (shr_m mrs'') * 2 ^ e''
               <= inject_Z (Zpos mz) * 2 ^ ez + 2 ^ B).
  { pose proof (shifted_value m1 e' (e'' - e') m1n ltac:(lia)) as S2.
    replace (e' + (e'' - e'))%Z with e'' in S2 by lia. rewrite <- M2 in S2.
    pose proof (shifted_value (Zpos mz) ez (e' - ez) ltac:(lia) ltac:(lia)) as S1.
    replace (ez + (e' - ez))%Z with e' in S1 by lia. rewrite <- M1 in S1.
    assert (U : inject_Z m1 <= inject_Z (shr_m mrs') + 1).
    { rewrite <- (inject_Z_plus _ 1). rewrite <- Zle_Qle. lia. }
    pose proof (pow2_pos e') as Pe'.
    pose proof (pow2_le e' B ltac:(lia)) as PB.
    assert (U' : inject_Z m1 * 2 ^ e'
                 <= (inject_Z (shr_m mrs') + 1) * 2 ^ e').
    { apply Qmult_le_compat_r; [exact U|apply Qlt_le_weak; exact Pe']. }
    lra. }
  destruct (shr_m mrs'') as [|m|m]; [left; reflexivity| |lia].
  right. exists m, e''.
  replace (e'' <=? B64.emax - B64.prec)%Z with true
    by (symmetry; apply Z.leb_le; unfold B64.emax, B64.prec; lia).
  split; [reflexivity|]. split; [lia|exact V2].
Qed.

Lemma shl_align_spec (mx : positive) (ex ex' : Z) :
  (snd (shl_align mx ex ex') <= ex)%Z /\
  inject_Z (Zpos (fst (shl_align mx ex ex'))) * 2 ^ snd (shl_align mx ex ex')
    == inject_Z (Zpos mx) * 2 ^ ex.
Proof.
  unfold shl_align. destruct (ex' - ex)%Z as [|d|d] eqn:D; cbn [fst snd];
    try (split; [lia|reflexivity]).
  split; [lia|].
  rewrite shift_left_value, inject_Z_mult, pow2_inject by lia.
  rewrite <- Qmult_assoc, <- pow2_add.
  replace (Zpos d + ex')%Z with ex by lia. reflexivity.
Qed.

Lemma binary_round_bound (sx : bool) (mx : positive) (ex K B : Z) :
  inject_Z (Zpos mx) * 2 ^ ex <= 2 ^ K ->
  (ex <= B)%Z -> (K - 51 <= B)%Z -> (-1074 <= B)%Z -> (B <= K)%Z ->
  (B <= 971)%Z ->
  binary_round B64.prec B64.emax sx mx ex = S754_zero sx \/
  exists m e,
    binary_round B64.prec B64.emax sx mx ex = S754_finite sx m e /\
    (e <= B)%Z /\
    inject_Z (Zpos m) * 2 ^ e <= inject_Z (Zpos mx) * 2 ^ ex + 2 ^ B.
Proof.
  intros V HB1 HB2 HB3 HB4 HB5. unfold binary_round.
  destruct (shl_align_spec mx ex
              (fexp B64.prec B64.emax (Zpos (digits2_pos mx) + ex)))
    as [L E].
  destruct (shl_align mx ex _) as [mz ez]. cbn [fst snd] in L, E.
  rewrite <- E in V.
  destruct (binary_round_aux_bound sx mz ez K B V) as [Z|(m & e & R & Le & Vm)];
    try assumption; try lia; [left; exact Z|].
  right. exists m, e. rewrite E in Vm. auto.
Qed.

(** A binary64 value between -1 and 1: its exponent and mantissa. *)
Lemma unit_interval_shape (sx : bool) (mx : positive) (ex : Z) :
  valid_binary B64.prec B64.emax (S754_finite sx mx ex) = true ->
  b64_between b64_minus_one b64_one (S754_finite sx mx ex) ->
  (ex <= -52)%Z /\ (Zpos mx <= 2 ^ (- ex))%Z.
Proof.
  intros V [L U].
  assert (C : (Zpos (digits2_pos mx) <= 53)%Z /\ (-1074 <= ex)%Z).
  { cbn [valid_binary] in V. unfold bounded, canonical_mantissa in V.
    apply andb_prop in V. destruct V as [V _]. apply Z.eqb_eq in V.
    unfold fexp, emin, B64.prec, B64.emax in V. lia. }
  assert (S : (ex < -52)%Z \/ ((ex = -52)%Z /\ (Zpos mx <= 2 ^ 52)%Z)).
  { change b64_one with b64_of_1 in U.
    change b64_minus_one with (B64.opp b64_of_1) in L.
    unfold B64.leb, SFleb, SFcompare, b64_of_1, B64.opp, SFopp in L, U.
    cbn [negb] in L.
    destruct sx.
    - destruct (Z.compare_spec (-52) ex) as [E|E|E]; [|discriminate|lia].
      right. split; [lia|].
      rewrite Pos.compare_cont_spec in L. cbn [Pos.switch_Eq] in L.
      rewrite Pos2Z.inj_compare in L.
      change (2 ^ 52)%Z with 4503599627370496%Z.
      destruct (Z.compare_spec 4503599627370496 (Zpos mx)) as [P|P|P];
        try discriminate L; lia.
    - destruct (Z.compare_spec ex (-52)) as [E|E|E]; [|lia|discriminate].
      right. split; [lia|].
      rewrite Pos.compare_cont_spec in U. cbn [Pos.switch_Eq] in U.
      rewrite Pos2Z.inj_compare in U.
      change (2 ^ 52)%Z with 4503599627370496%Z.
      destruct (Z.compare_spec (Zpos mx) 4503599627370496) as [P|P|P];
        try discriminate U; lia. }
  split; [lia|].
  destruct S as [S|[-> S]]; [|exact S].
  pose proof (digits2_pos_bounds mx) as [_ D].
  assert (2 ^ Zpos (digits2_pos mx) <= 2 ^ (- ex))%Z
    by (apply Z.pow_le_mono_r; lia).
  lia.
Qed.

(** [s + 1] for a finite [s] of exponent at most -52: the sum of the
    mantissas aligned on the exponent of [s]. *)
Lemma add_one_unfold (sx : bool) (mx : positive) (ex : Z) :
  (ex <= -52)%Z ->
  B64.add (S754_finite sx mx ex) b64_of_1
  = binary_normalize B64.prec B64.emax
      (cond_Zopp sx (Zpos mx) + 2 ^ (- ex))%Z ex false.
Proof.
  intros L. unfold B64.add, SFadd, b64_of_1. cbv zeta.
  rewrite Z.min_l by lia. f_equal. f_equal.
  - unfold shl_align. rewrite Z.sub_diag. reflexivity.
  - unfold shl_align, cond_Zopp.
    destruct (ex - -52)%Z as [|d|d] eqn:D; cbn [fst]; [|lia|].
    + replace ex with (-52)%Z by lia. reflexivity.
    + rewrite shift_left_value.
      replace (- ex)%Z with (52 + Zpos d)%Z by lia.
      rewrite Z.pow_add_r by lia. reflexivity.
Qed.

(** [s + 1] for [s] in the unit interval is +0 or a positive finite
    float of value at most [2 + 2 ^ -50]. *)
Lemma add_one_bound (s : B64.float) :
  valid_binary B64.prec B64.emax s = true ->
  b64_between b64_minus_one b64_one s ->
  B64.add s b64_of_1 = S754_zero false \/
  exists m e,
    B64.add s b64_of_1 = S754_finite false m e /\ (e <= -50)%Z /\
    inject_Z (Zpos m) * 2 ^ e <= 2 + 2 ^ (-50).
Proof.
  intros V I.
  destruct s as [z|i| |sx mx ex].
  - right. exists 4503599627370496%positive, (-52)%Z.
    destruct z; (split; [reflexivity|split; [lia|vm_compute; discriminate]]).
  - destruct I as [L U]. destruct i; [discriminate L|discriminate U].
  - destruct I as [L _]. discriminate L.
  - destruct (unit_interval_shape sx mx ex V I) as [E M].
    rewrite add_one_unfold by exact E.
    assert (P : (0 < 2 ^ (- ex))%Z) by (apply Z.pow_pos_nonneg; lia).
    set (m := (cond_Zopp sx (Zpos mx) + 2 ^ (- ex))%Z).
    assert (Mb : (0 <= m <= 2 ^ (1 - ex))%Z).
    { replace (1 - ex)%Z with (1 + - ex)%Z by lia.
      rewrite Z.pow_add_r by lia. change (2 ^ 1)%Z with 2%Z.
      subst m. destruct sx; cbn [cond_Zopp]; lia. }
    destruct m as [|mp|mp]; [left; reflexivity| |lia].
    cbn [binary_normalize].
    assert (Vp : inject_Z (Zpos mp) * 2 ^ ex <= 2 ^ 1).
    { destruct Mb as [_ Mb]. rewrite Zle_Qle, pow2_inject in Mb by lia.
      replace (1 - ex)%Z with (1 + - ex)%Z in Mb by lia.
      rewrite pow2_add in Mb.
      assert (X : 2 ^ (- ex) * 2 ^ ex == 1).
      { rewrite <- pow2_add. replace (- ex + ex)%Z with 0%Z by lia.
        reflexivity. }
      pose proof (pow2_pos ex) as Pe.
      apply Qle_trans with (2 ^ 1 * 2 ^ (- ex) * 2 ^ ex).
      - apply Qmult_le_compat_r; [exact Mb|apply Qlt_le_weak; exact Pe].
      - rewrite <- Qmult_assoc, X. rewrite Qmult_1_r. apply Qle_refl. }
    destruct (binary_round_bound false mp ex 1 (-50) Vp)
      as [Z|(m' & e' & R & Le & Vm)]; try lia; [left; exact Z|].
    right. exists m', e'. split; [exact R|]. split; [exact Le|].
    change (2 ^ 1) with 2 in Vp. lra.
Qed.

(** The product by 50 of such a sum is +0 or a positive finite float
    with a negative exponent, below 101. *)
Lemma mul_fifty_bound (x : B64.float) :
  (x = S754_zero false \/
   exists m e, x = S754_finite false m e /\ (e <= -50)%Z /\
               inject_Z (Zpos m) * 2 ^ e <= 2 + 2 ^ (-50)) ->
  B64.mul x b64_of_50 = S754_zero false \/
  exists m e,
    B64.mul x b64_of_50 = S754_finite false m e /\ (e <= -44)%Z /\
    inject_Z (Zpos m) * 2 ^ e < 101.
Proof.
  intros [->|(m & e & -> & Le & Vm)]; [left; reflexivity|].
  unfold B64.mul, SFmul, b64_of_50. cbn [xorb].
  assert (Vp : inject_Z (Zpos (m * 7036874417766400)) * 2 ^ (e + -47)
               == 50 * (inject_Z (Zpos m) * 2 ^ e)).
  { rewrite Pos2Z.inj_mul, inject_Z_mult, pow2_add.
    assert (X : inject_Z 7036874417766400 * 2 ^ (-47) == 50)
      by (vm_compute; reflexivity).
    rewrite <- X. ring. }
  assert (S : 2 ^ (-50) == 1 # 1125899906842624) by (vm_compute; reflexivity).
  assert (S' : 2 ^ (-44) == 1 # 17592186044416) by (vm_compute; reflexivity).
  assert (V7 : inject_Z (Zpos (m * 7036874417766400)) * 2 ^ (e + -47) <= 2 ^ 7).
  { rewrite Vp. change (2 ^ 7) with 128. rewrite S in Vm. lra. }
  destruct (binary_round_aux_bound false (m * 7036874417766400) (e + -47)
              7 (-44) V7)
    as [Z|(m' & e' & R & Le' & Vm')]; try lia; [left; exact Z|].
  right. exists m', e'. split; [exact R|]. split; [exact Le'|].
  rewrite Vp, S' in Vm'. rewrite S in Vm. lra.
Qed.

(** [int()] of a positive finite float with a negative exponent is the
    floor of its value. *)
Lemma trunc_is_floor (m : positive) (e : Z) :
  (e < 0)%Z ->
  B64.to_Q (S754_finite false m e) == inject_Z (Zpos m) * 2 ^ e /\
  B64.trunc (S754_finite false m e)
    = Some (Qfloor (B64.to_Q (S754_finite false m e))).
Proof.
  intros E. destruct e as [|k|k]; try lia. cbn [B64.to_Q B64.trunc].
  assert (P : Zpos (Pos.shiftl 1 (Npos k)) = (2 ^ Zpos k)%Z).
  { cbn [Pos.shiftl]. rewrite shift_left_value. lia. }
  split.
  - rewrite Qmake_Qdiv, P, pow2_inject by lia.
    change (Zneg k) with (- Zpos k)%Z. rewrite Qpower_opp. reflexivity.
  - cbn [Qfloor]. rewrite P, Z.shiftr_div_pow2 by lia. reflexivity.
Qed.


(** ** Percentages *)

Lemma Qtrunc_nonneg (q : Q) : 0 <= q -> Qtrunc q = Qfloor q.
Proof.
  destruct q as [n d]. unfold Qle, Qtrunc, Qfloor. cbn. intro P.
  apply Z.quot_div_nonneg; lia.
Qed.

Lemma percentage_Q (s : Q) :
  balance_percentage s = Some (Qtrunc ((s + 1) * 50)).
Proof. reflexivity. Qed.

(** C3, as stated, fails at the signal 0.390625: [(s + 1) * 50] is
    69.53125, [round] gives 70, and [int] hands 69 to the actuator, in
    exact arithmetic and in binary64 alike. *)
Lemma percentage_is_not_rounded :
  -1 <= 25 # 64 <= 1 /\
  ((25 # 64) + 1) * 50 == 6953125 # 100000 /\
  py_round (((25 # 64) + 1) * 50) = 70%Z /\
  balance_percentage (25 # 64) = Some 69%Z /\
  balance_percentage (B64.literal 25 64) = Some 69%Z /\
  ~ (forall s : Q, -1 <= s <= 1 ->
       balance_percentage s = Some (py_round ((s + 1) * 50))).
Proof.
  repeat split; try discriminate; try (vm_compute; reflexivity).
  intro A. specialize (A (25 # 64)).
  assert (R : -1 <= 25 # 64 <= 1) by (split; discriminate).
  specialize (A R). vm_compute in A. discriminate.
Qed.

(** C3, amended: for a binary64 signal between -1 and 1, the percentage
    handed to the actuator (by either front-end) is the product
    [(s + 1) * 50] as binary64 computes it, truncated: the computed
    product is not negative, the percentage is the largest integer not
    above it, and it lies between 0 and 100.  It is the computed product
    that is truncated, not the exact one: at the float 0.16 the exact
    product is just above 58 and the percentage is 57. *)
Theorem percentage_truncates :
  (forall s : B64.float,
      valid_binary B64.prec B64.emax s = true ->
      b64_between b64_minus_one b64_one s ->
      exists p : Z,
        balance_percentage s = Some p /\
        Menubar.set_audio_balance s = Some (SetSystemBalance p) /\
        (let product := B64.to_Q (fmul (fadd s (of_int 1)) (of_int 50)) in
         0 <= product /\ inject_Z p <= product < inject_Z p + 1) /\
        (0 <= p <= 100)%Z) /\
  balance_percentage (B64.literal 16 100) = Some 57%Z /\
  Qfloor ((B64.to_Q (B64.literal 16 100) + 1) * 50) = 58%Z.
Proof.
  split; [|split; vm_compute; reflexivity].
  intros s V I.
  unfold Menubar.set_audio_balance, balance_percentage.
  cbn [fmul fadd of_int to_int Binary64].
  change (B64.of_Z 1) with b64_of_1. change (B64.of_Z 50) with b64_of_50.
  destruct (mul_fifty_bound _ (add_one_bound s V I))
    as [->|(m & e & -> & Le & Vm)].
  - exists 0%Z. cbn. repeat split; try lia; discriminate.
  - destruct (trunc_is_floor m e ltac:(lia)) as [Q T].
    rewrite T. set (v := B64.to_Q (S754_finite false m e)) in *.
    exists (Qfloor v). split; [reflexivity|]. split; [reflexivity|].
    assert (N : 0 <= v).
    { rewrite Q. pose proof (pow2_pos e).
      apply Qmult_le_0_compat; [|lra]. rewrite <- (Zle_Qle 0). lia. }
    pose proof (Qfloor_le v) as F1. pose proof (Qlt_floor v) as F2.
    rewrite inject_Z_plus in F2.
    split; [cbv zeta; repeat split; assumption|].
    split.
    + rewrite <- (Qfloor_Z 0). apply Qfloor_resp_le. exact N.
    + assert (L : (Qfloor v <= Qfloor 101)%Z)
        by (apply Qfloor_resp_le; rewrite Q; lra).
      change (Qfloor 101) with 101%Z in L.
      assert (Qfloor v <> 101)%Z; [|lia].
      intros X. rewrite X in F1. rewrite Q in F1.
      change (inject_Z 101) with 101 in F1. lra.
Qed.

Lemma percentage_truncates_witness :
  exists p : Z,
    balance_percentage (B64.literal 25 64) = Some p /\
    Menubar.set_audio_balance (B64.literal 25 64)
      = Some (SetSystemBalance p) /\
    (let product :=
       B64.to_Q (fmul (fadd (B64.literal 25 64) (of_int 1)) (of_int 50)) in
     0 <= product /\ inject_Z p <= product < inject_Z p + 1) /\
    (0 <= p <= 100)%Z.
Proof.
  apply (proj1 percentage_truncates (B64.literal 25 64)).
  - vm_compute. reflexivity.
  - split; vm_compute; reflexivity.
Defined.

(** ** Rate limiting *)

Section Gate.

Context {F : Type} `{PyFloat F}.

Lemma same_timer_refl (a : Balancer F) : same_timer a a.
Proof. split; reflexivity. Qed.

Lemma same_timer_trans (a b c : Balancer F) :
  same_timer a b -> same_timer b c -> same_timer a c.
Proof. intros [A1 A2] [B1 B2]. split; congruence. Qed.

Lemma calibrate_same_timer (st : Balancer F) x reply :
  same_timer (calibrate st x reply) st.
Proof.
  unfold calibrate.
  destruct x; [|destruct (last_face_position st)]; split; reflexivity.
Qed.

Lemma handle_terminal_input_same_timer (st : Balancer F) line :
  same_timer (handle_terminal_input st line) st.
Proof.
  destruct line as [cmd reply]. unfold handle_terminal_input.
  repeat match goal with
         | |- context [if ?b then _ else _] => destruct b
         end;
    try apply calibrate_same_timer; split; reflexivity.
Qed.

Lemma terminal_lines_same_timer (lines : list (string * option Z))
    (st : Balancer F) :
  same_timer (fold_left handle_terminal_input lines st) st.
Proof.
  revert st. induction lines as [|l lines IH]; intro st; cbn.
  - apply same_timer_refl.
  - eapply same_timer_trans; [apply IH | apply handle_terminal_input_same_timer].
Qed.

Lemma preview_same_timer (st : Balancer F) w face t :
  same_timer (fst (preview st w face t)) st.
Proof.
  unfold preview.
  repeat match goal with
         | |- context [if ?b then _ else _] => destruct b
         end;
    try apply calibrate_same_timer; split; reflexivity.
Qed.

(** What the face branch does to the timer. *)
Lemma update_balance_gate (st : Balancer F) (w x : Z) (now : F) :
  let '(st', r) := update_balance st w x now in
  update_frequency st' = update_frequency st /\
  match r with
  | None => last_balance_update st' = last_balance_update st
  | Some [] => last_balance_update st' = last_balance_update st
  | Some [a] => is_actuator a = true /\ gate_open st now = true /\
                last_balance_update st' = now
  | Some _ => False
  end.
Proof.
  unfold update_balance, gate_open.
  cbn [update_frequency last_balance_update set_last_face_position].
  destruct (flt _ _); [|auto].
  destruct (calculate_audio_balance _ _ _); [|auto].
  unfold set_audio_balance.
  destruct (balance_percentage _); [|auto].
  cbn. destruct (use_eqmac st); auto.
Qed.

(** One pass: the timer is reset exactly when the face branch fired, and
    it fires only past the gate and on a detected face. *)
Lemma loop_pass_gate (w : Z) (st : Balancer F) (t : Tick F) :
  let '(st', acts) := pass_result (loop_pass w st t) in
  update_frequency st' = update_frequency st /\
  ((acts = [] /\ last_balance_update st' = last_balance_update st) \/
   (exists a faces x,
       acts = [a] /\ is_actuator a = true /\
       t_faces t = Some faces /\ face_center faces = Some x /\
       gate_open st (t_now t) = true /\
       last_balance_update st' = t_now t)).
Proof.
  unfold loop_pass.
  pose proof (terminal_lines_same_timer (t_lines t) st) as [L0 F0].
  set (st0 := fold_left handle_terminal_input (t_lines t) st) in *.
  destruct (negb (running st0)); [cbn; auto|].
  destruct (negb (t_ret t)); [cbn; auto|].
  destruct (t_faces t) as [faces|]; [|cbn; auto].
  destruct (face_center faces) as [x|] eqn:FC.
  - pose proof (update_balance_gate st0 w x (t_now t)) as G.
    destruct (update_balance st0 w x (t_now t)) as [st1 r].
    destruct G as [F1 G].
    destruct r as [acts|]; [|cbn; split; [congruence | left; split; congruence]].
    assert (P : forall st2 : Balancer F, same_timer st2 st1 ->
              update_frequency st2 = update_frequency st /\
              ((acts = [] /\ last_balance_update st2 = last_balance_update st) \/
               (exists a faces0 x0,
                   acts = [a] /\ is_actuator a = true /\
                   Some faces = Some faces0 /\ face_center faces0 = Some x0 /\
                   gate_open st (t_now t) = true /\
                   last_balance_update st2 = t_now t))).
    { intros st2 [L2 F2]. split; [congruence|].
      destruct acts as [|a [|b acts]]; [left; split; congruence| |contradiction].
      destruct G as [A [O L1]]. right. exists a, faces, x.
      repeat split; try assumption; try congruence.
      unfold gate_open in *. rewrite <- L0, <- F0. exact O. }
    destruct (show_preview st1).
    + pose proof (preview_same_timer st1 w (Some x) t) as S.
      destruct (preview st1 w (Some x) t) as [st2 quit]. cbn [fst] in S.
      destruct quit; cbn; apply P, S.
    + cbn. apply P, same_timer_refl.
  - destruct (show_preview st0).
    + pose proof (preview_same_timer st0 w None t) as [L2 F2].
      destruct (preview st0 w None t) as [st2 quit]. cbn [fst] in *.
      destruct quit; cbn; (split; [congruence | left; split; congruence]).
    + cbn. split; [congruence | left; split; congruence].
Qed.

Lemma quiet_pass (w : Z) (st : Balancer F) (t : Tick F) :
  t_faces t = None \/ t_faces t = Some [] \/ gate_open st (t_now t) = false ->
  let '(st', acts) := pass_result (loop_pass w st t) in
  acts = [] /\ last_balance_update st' = last_balance_update st.
Proof.
  intro Q. pose proof (loop_pass_gate w st t) as G.
  destruct (pass_result (loop_pass w st t)) as [st' acts].
  destruct G as [_ [G|(a & faces & x & _ & _ & TF & FC & O & _)]]; [exact G|].
  exfalso. destruct Q as [Q|[Q|Q]]; try congruence.
  rewrite Q in TF. injection TF as <-. discriminate.
Qed.

Lemma fired_count (acts : list Action) :
  acts = [] \/ (exists a, acts = [a] /\ is_actuator a = true) ->
  List.length (filter is_actuator acts)
  = List.length (if fired acts then [tt] else []).
Proof.
  intros [->|(a & -> & A)]; cbn; [reflexivity|]. rewrite A. reflexivity.
Qed.

Lemma actuation_times_count (w : Z) (ticks : list (Tick F)) :
  forall st : Balancer F,
    List.length (filter is_actuator (snd (fst (run_loop w st ticks))))
    = List.length (actuation_times w st ticks).
Proof.
  induction ticks as [|t ticks IH]; intro st; [reflexivity|].
  cbn [run_loop actuation_times].
  pose proof (loop_pass_gate w st t) as G.
  destruct (loop_pass w st t) as [st' acts|st' acts why]; cbn [pass_result] in G.
  - specialize (IH st').
    destruct (run_loop w st' ticks) as [[st'' acts'] why]. cbn [fst snd] in *.
    rewrite filter_app, !length_app, IH. f_equal.
    destruct G as [_ [[-> _]|(a & _ & _ & -> & A & _)]]; cbn; [reflexivity|].
    rewrite A. reflexivity.
  - cbn [fst snd].
    destruct G as [_ [[-> _]|(a & _ & _ & -> & A & _)]]; cbn; [reflexivity|].
    rewrite A. reflexivity.
Qed.

(** *** The menubar loop *)

Lemma ui_events_same_timer (events : list (Menubar.UiEvent F))
    (st : Menubar.App F) :
  Menubar.last_balance_update (fold_left Menubar.ui_event events st)
  = Menubar.last_balance_update st /\
  Menubar.update_frequency (fold_left Menubar.ui_event events st)
  = Menubar.update_frequency st.
Proof.
  revert st. induction events as [|e events IH]; intro st; [split; reflexivity|].
  cbn [fold_left]. destruct (IH (Menubar.ui_event st e)) as [A B].
  rewrite A, B. destruct e; split; reflexivity.
Qed.

Lemma menubar_update_balance_gate (st : Menubar.App F) (t : Menubar.Tick F)
    (x : Z) :
  let '(st', r) := Menubar.update_balance st t x in
  Menubar.update_frequency st' = Menubar.update_frequency st /\
  match r with
  | Some [a] => is_actuator a = true /\
                menubar_gate_open st (Menubar.t_now t) = true /\
                Menubar.last_balance_update st' = Menubar.t_now t
  | Some (_ :: _ :: _) => False
  | Some [] =>
      Menubar.last_balance_update st' = Menubar.last_balance_update st \/
      (menubar_gate_open st (Menubar.t_now t) = true /\
       Menubar.last_balance_update st' = Menubar.t_now t)
  | None => Menubar.last_balance_update st' = Menubar.last_balance_update st
  end.
Proof.
  unfold Menubar.update_balance, menubar_gate_open.
  cbn [Menubar.update_frequency Menubar.last_balance_update].
  destruct (Menubar.t_frame_width t =? 0)%Z; [cbn; auto|].
  destruct (flt _ _); [|cbn; auto].
  destruct (Menubar.tracked_balance _ _ _); [|cbn; auto].
  destruct (Menubar.t_highlighted t) as [[|]|]; cbn; auto;
    unfold Menubar.set_audio_balance;
    destruct (balance_percentage _); cbn; auto.
Qed.


Lemma menubar_loop_pass_gate (st : Menubar.App F) (t : Menubar.Tick F) :
  let '(st', acts, _) := Menubar.loop_pass st t in
  Menubar.update_frequency st' = Menubar.update_frequency st /\
  ((acts = [] /\
    (Menubar.last_balance_update st' = Menubar.last_balance_update st \/
     (menubar_gate_open st (Menubar.t_now t) = true /\
      Menubar.last_balance_update st' = Menubar.t_now t))) \/
   (exists a, acts = [a] /\ is_actuator a = true /\
              menubar_gate_open st (Menubar.t_now t) = true /\
              Menubar.last_balance_update st' = Menubar.t_now t)).
Proof.
  unfold Menubar.loop_pass.
  pose proof (ui_events_same_timer (Menubar.t_events t) st) as [L0 F0].
  set (st0 := fold_left Menubar.ui_event (Menubar.t_events t) st) in *.
  destruct (negb (Menubar.running st0)); [auto|].
  destruct (negb (Menubar.t_opened t)); [auto|].
  destruct (negb (Menubar.t_ret t)); [auto|].
  destruct (Menubar.t_faces t) as [faces|]; [|auto].
  assert (P : forall st1 r,
             (Menubar.update_frequency st1 = Menubar.update_frequency st0 /\
              match r with
              | Some [a] => is_actuator a = true /\
                            menubar_gate_open st0 (Menubar.t_now t) = true /\
                            Menubar.last_balance_update st1 = Menubar.t_now t
              | Some (_ :: _ :: _) => False
              | Some [] =>
                  Menubar.last_balance_update st1
                  = Menubar.last_balance_update st0 \/
                  (menubar_gate_open st0 (Menubar.t_now t) = true /\
                   Menubar.last_balance_update st1 = Menubar.t_now t)
              | None => Menubar.last_balance_update st1
                        = Menubar.last_balance_update st0
              end) ->
             let '(st', acts, _) :=
               match r with
               | Some acts =>
                   if match Menubar.last_face_position st1 with
                      | Some _ => (Menubar.t_frame_width t =? 0)%Z
                      | None => false
                      end
                   then (st1, acts, false)
                   else if (Z.land (Menubar.t_key t) 255 =? 27)%Z
                        then (st1, acts, false) else (st1, acts, true)
               | None => (st1, [], false)
               end in
             Menubar.update_frequency st' = Menubar.update_frequency st /\
             ((acts = [] /\
               (Menubar.last_balance_update st'
                = Menubar.last_balance_update st \/
                (menubar_gate_open st (Menubar.t_now t) = true /\
                 Menubar.last_balance_update st' = Menubar.t_now t))) \/
              (exists a, acts = [a] /\ is_actuator a = true /\
                         menubar_gate_open st (Menubar.t_now t) = true /\
                         Menubar.last_balance_update st' = Menubar.t_now t))).
  { intros st1 r [F1 G].
    assert (O : menubar_gate_open st0 (Menubar.t_now t)
                = menubar_gate_open st (Menubar.t_now t))
      by (unfold menubar_gate_open; rewrite L0, F0; reflexivity).
    rewrite O in G.
    assert (R : Menubar.update_frequency st1 = Menubar.update_frequency st /\
                forall acts, r = Some acts ->
                  (acts = [] /\
                   (Menubar.last_balance_update st1
                    = Menubar.last_balance_update st \/
                    (menubar_gate_open st (Menubar.t_now t) = true /\
                     Menubar.last_balance_update st1 = Menubar.t_now t))) \/
                  (exists a, acts = [a] /\ is_actuator a = true /\
                     menubar_gate_open st (Menubar.t_now t) = true /\
                     Menubar.last_balance_update st1 = Menubar.t_now t)).
    { split; [congruence|]. intros acts ->.
      destruct acts as [|a [|b acts]]; [|right; exists a; tauto|contradiction].
      left. split; [reflexivity|]. destruct G as [G|G]; [left; congruence|tauto]. }
    destruct R as [R1 R2].
    destruct r as [acts|].
    - specialize (R2 acts eq_refl).
      repeat match goal with
             | |- context [if ?b then _ else _] => destruct b
             end; split; assumption.
    - split; [exact R1|]. left. split; [reflexivity|]. left. congruence. }
  destruct (face_center faces) as [x|].
  - pose proof (menubar_update_balance_gate st0 t x) as G.
    destruct (Menubar.update_balance st0 t x) as [st1 r].
    apply (P st1 r G).
  - apply (P st0 (Some [])). split; [reflexivity|]. left. reflexivity.
Qed.

Lemma menubar_quiet_pass (st : Menubar.App F) (t : Menubar.Tick F) :
  Menubar.t_faces t = None \/ Menubar.t_faces t = Some [] \/
  menubar_gate_open st (Menubar.t_now t) = false ->
  let '(st', acts, _) := Menubar.loop_pass st t in
  acts = [] /\
  Menubar.last_balance_update st' = Menubar.last_balance_update st.
Proof.
  intro Q.
  destruct Q as [Q|[Q|Q]].
  - unfold Menubar.loop_pass.
    pose proof (ui_events_same_timer (Menubar.t_events t) st) as [L0 _].
    rewrite Q.
    repeat match goal with
           | |- context [if ?b then _ else _] => destruct b
           end; auto.
  - unfold Menubar.loop_pass.
    pose proof (ui_events_same_timer (Menubar.t_events t) st) as [L0 _].
    rewrite Q. cbn [face_center].
    repeat match goal with
           | |- context [if ?b then _ else _] => destruct b
           | |- context [match ?b with Some _ => _ | None => _ end] => destruct b
           end; auto.
  - pose proof (menubar_loop_pass_gate st t) as G.
    destruct (Menubar.loop_pass st t) as [[st' acts] c].
    destruct G as [_ [[-> [G|[G _]]]|(a & _ & _ & G & _)]];
      [auto | congruence | congruence].
Qed.

End Gate.

(** *** Spacing of the calls over exact rationals *)

Lemma gaps_tail (g x : Q) (l : list Q) :
  gaps_exceed g (x :: l) -> gaps_exceed g l.
Proof. destruct l; cbn; tauto. Qed.

Lemma gaps_from_head (g x : Q) (l : list Q) :
  0 <= g -> gaps_exceed g (x :: l) -> Forall (fun y => g < y - x) l.
Proof.
  intro P. revert x. induction l as [|y l IH]; intros x G; constructor.
  - apply G.
  - destruct G as [G1 G2]. specialize (IH y G2).
    eapply Forall_impl; [|exact IH]. cbn. intros z Z. lra.
Qed.

Lemma gaps_cons (g x : Q) (l : list Q) :
  Forall (fun y => g < y - x) l -> gaps_exceed g l -> gaps_exceed g (x :: l).
Proof.
  intros A G. destruct l as [|y l]; [exact I|].
  split; [exact (Forall_inv A) | exact G].
Qed.

Lemma gaps_filter (p : Q -> bool) (g : Q) (l : list Q) :
  0 <= g -> gaps_exceed g l -> gaps_exceed g (filter p l).
Proof.
  intro P. induction l as [|x l IH]; intro G; [exact I|].
  pose proof (IH (gaps_tail _ _ _ G)) as G'.
  cbn [filter]. destruct (p x); [|exact G'].
  apply gaps_cons; [|exact G'].
  pose proof (gaps_from_head g x l P G) as A.
  rewrite Forall_forall in *. intros y Y.
  apply filter_In in Y. apply A, Y.
Qed.

Lemma gaps_six (g x1 x2 x3 x4 x5 x6 : Q) (l : list Q) :
  gaps_exceed g (x1 :: x2 :: x3 :: x4 :: x5 :: x6 :: l) ->
  5 * g < x6 - x1.
Proof. cbn. intros (A & B & C & D & E & _). lra. Qed.

Lemma in_window_true (a t : Q) : in_window a t = true -> a <= t <= a + 1.
Proof.
  unfold in_window. rewrite andb_true_iff, !Qle_bool_iff. tauto.
Qed.

Lemma window_bound (g a : Q) (l : list Q) :
  1 # 5 <= g -> gaps_exceed g l ->
  (List.length (filter (in_window a) l) <= 5)%nat.
Proof.
  intros P G.
  assert (P0 : 0 <= g) by lra.
  pose proof (gaps_filter (in_window a) g l P0 G) as GF.
  assert (W : Forall (fun t => a <= t <= a + 1) (filter (in_window a) l)).
  { rewrite Forall_forall. intros t T. apply filter_In in T.
    apply in_window_true, T. }
  destruct (filter (in_window a) l) as [|x1 [|x2 [|x3 [|x4 [|x5 [|x6 r]]]]]];
    cbn [List.length]; try lia.
  exfalso. pose proof (gaps_six _ _ _ _ _ _ _ _ GF) as S.
  pose proof (Forall_inv W) as W1.
  do 5 apply Forall_inv_tail in W. apply Forall_inv in W.
  cbv beta in W, W1. lra.
Qed.

Lemma gate_open_Q (st : Balancer Q) (now : Q) :
  gate_open st now = true ->
  update_frequency st < now - last_balance_update st.
Proof. unfold gate_open. cbn [flt fsub ExactQ]. apply Qlt_bool_true. Qed.

Lemma gate_closed_Q (st : Balancer Q) (now : Q) :
  gate_open st now = false ->
  now - last_balance_update st <= update_frequency st.
Proof. unfold gate_open. cbn [flt fsub ExactQ]. apply Qlt_bool_false. Qed.

Lemma actuation_times_spaced (w : Z) (ticks : list (Tick Q)) :
  forall st : Balancer Q,
    gaps_exceed (update_frequency st)
      (last_balance_update st :: actuation_times w st ticks).
Proof.
  induction ticks as [|t ticks IH]; intro st; [exact I|].
  cbn [actuation_times].
  pose proof (loop_pass_gate w st t) as G.
  destruct (loop_pass w st t) as [st' acts|st' acts why]; cbn [pass_result] in G;
    destruct G as [Fq [[-> L]|(a & faces & x & -> & A & _ & _ & O & L)]];
    cbn [fired existsb]; try rewrite A; cbn [orb app].
  - specialize (IH st'). rewrite Fq, L in IH. exact IH.
  - specialize (IH st'). rewrite Fq, L in IH.
    apply gate_open_Q in O. split; assumption.
  - exact I.
  - apply gate_open_Q in O. split; [exact O | exact I].
Qed.

Lemma menubar_gate_open_Q (st : Menubar.App Q) (now : Q) :
  menubar_gate_open st now = true ->
  Menubar.update_frequency st < now - Menubar.last_balance_update st.
Proof. unfold menubar_gate_open. cbn [flt fsub ExactQ]. apply Qlt_bool_true. Qed.

Lemma gaps_lower_head (g c c' : Q) (l : list Q) :
  c' <= c -> gaps_exceed g (c :: l) -> gaps_exceed g (c' :: l).
Proof.
  intros L G. destruct l as [|y l]; [exact I|].
  destruct G as [G1 G2]. split; [lra | exact G2].
Qed.

Lemma menubar_actuation_times_spaced (ticks : list (Menubar.Tick Q)) :
  forall st : Menubar.App Q,
    0 <= Menubar.update_frequency st ->
    gaps_exceed (Menubar.update_frequency st)
      (Menubar.last_balance_update st :: menubar_actuation_times st ticks).
Proof.
  induction ticks as [|t ticks IH]; intros st P; [exact I|].
  cbn [menubar_actuation_times].
  pose proof (menubar_loop_pass_gate st t) as G.
  destruct (Menubar.loop_pass st t) as [[st' acts] c].
  destruct G as [Fq G]. specialize (IH st'). rewrite Fq in IH.
  specialize (IH P).
  destruct G as [[-> [L|[O L]]]|(a & -> & A & O & L)];
    cbn [fired existsb]; try rewrite A; cbn [orb app]; rewrite L in IH.
  - destruct c; [exact IH | exact I].
  - apply menubar_gate_open_Q in O.
    destruct c; [|exact I].
    apply (gaps_lower_head _ (Menubar.t_now t)); [lra | exact IH].
  - apply menubar_gate_open_Q in O.
    destruct c; [split; assumption | split; [exact O | exact I]].
Qed.


(** C6: in every run of the loop, each actuator call of the face branch
    comes more than [update_frequency] after the previous one (and after
    the initial timestamp), so with the interval at 0.2 s no closed
    one-second span holds more than five of them, whatever the frame
    cadence; a pass without a face, or with the interval not elapsed,
    calls nothing and leaves the timer alone.  Both front-ends. *)
Theorem actuator_calls_are_rate_limited :
  (forall (w : Z) (st : Balancer Q) (ticks : list (Tick Q)),
      let times := actuation_times w st ticks in
      gaps_exceed (update_frequency st) (last_balance_update st :: times) /\
      length (filter is_actuator (snd (fst (run_loop w st ticks))))
      = length times /\
      (update_frequency st == 2 # 10 ->
       forall a : Q, (length (filter (in_window a) times) <= 5)%nat)) /\
  (forall (w : Z) (st : Balancer Q) (t : Tick Q),
      t_faces t = None \/ t_faces t = Some [] \/
      t_now t - last_balance_update st <= update_frequency st ->
      let '(st', acts) := pass_result (loop_pass w st t) in
      acts = [] /\ last_balance_update st' = last_balance_update st) /\
  (forall (st : Menubar.App Q) (ticks : list (Menubar.Tick Q)),
      let times := menubar_actuation_times st ticks in
      Menubar.update_frequency st == 2 # 10 ->
      gaps_exceed (Menubar.update_frequency st)
        (Menubar.last_balance_update st :: times) /\
      forall a : Q, (length (filter (in_window a) times) <= 5)%nat) /\
  (forall (st : Menubar.App Q) (t : Menubar.Tick Q),
      Menubar.t_faces t = None \/ Menubar.t_faces t = Some [] \/
      Menubar.t_now t - Menubar.last_balance_update st
        <= Menubar.update_frequency st ->
      let '(st', acts, _) := Menubar.loop_pass st t in
      acts = [] /\
      Menubar.last_balance_update st' = Menubar.last_balance_update st).
Proof.
  split; [|split; [|split]].
  - intros w st ticks times.
    pose proof (actuation_times_spaced w ticks st) as G.
    split; [exact G|]. split; [apply actuation_times_count|].
    intros E a. apply (window_bound (update_frequency st)).
    + rewrite E. discriminate.
    + exact (gaps_tail _ _ _ G).
  - intros w st t Q. apply quiet_pass.
    destruct Q as [Q|[Q|Q]]; auto. right; right.
    unfold gate_open. cbn [flt fsub ExactQ]. apply Qlt_bool_false, Q.
  - intros st ticks times E.
    assert (P : 0 <= Menubar.update_frequency st) by (rewrite E; discriminate).
    pose proof (menubar_actuation_times_spaced ticks st P) as G.
    split; [exact G|].
    intro a. apply (window_bound (Menubar.update_frequency st)).
    + rewrite E. discriminate.
    + exact (gaps_tail _ _ _ G).
  - intros st t Q. apply menubar_quiet_pass.
    destruct Q as [Q|[Q|Q]]; auto. right; right.
    unfold menubar_gate_open. cbn [flt fsub ExactQ]. apply Qlt_bool_false, Q.
Qed.

(** Frames every 0.01 s for one second, a face in each: the calls fall at
    0.21, 0.42, 0.63 and 0.84 s. *)
Lemma burst_actuation_times :
  Forall2 Qeq (actuation_times 640 q_default burst)
    [21 # 100; 42 # 100; 63 # 100; 84 # 100].
Proof. vm_compute. repeat constructor. Qed.

Lemma actuator_calls_are_rate_limited_witness :
  (length (filter (in_window 0) (actuation_times 640 q_default burst))
   <= 5)%nat.
Proof.
  refine (proj2 (proj2 (proj1 actuator_calls_are_rate_limited
                          640%Z q_default burst)) _ 0).
  reflexivity.
Defined.

(** ** Teardown *)

(** Once the loop is left, for whatever reason, the [finally] block
    releases the camera, closes the preview if it is still on, and makes
    one restoring call. *)
Lemma track_head_teardown {F : Type} `{PyFloat F} (st st' : Balancer F)
    (w : Z) (ticks : list (Tick F)) (acts : list Action) (why : Exit) :
  run_loop w st ticks = (st', acts, Some why) ->
  track_head st true (Some w) ticks =
  match restore_balance st' with
  | Some a =>
      Finished st'
        (acts ++ (CapRelease ::
                  (if show_preview st' then [DestroyAllWindows] else []))
              ++ [a]) why
  | None =>
      TeardownRaised st'
        (acts ++ CapRelease ::
                 (if show_preview st' then [DestroyAllWindows] else []))
  end.
Proof.
  intro R. unfold track_head. cbn [negb]. rewrite R.
  unfold teardown. destruct (restore_balance st'); reflexivity.
Qed.

(** A pass that finds [running] false, a failed read, or a raising
    detector leaves the loop. *)
Lemma loop_pass_leaves {F : Type} `{PyFloat F} (w : Z) (st : Balancer F)
    (t : Tick F) :
  let st0 := fold_left handle_terminal_input (t_lines t) st in
  (running st0 = false -> loop_pass w st t = Leave st0 [] Stopped) /\
  (running st0 = true -> t_ret t = false ->
   loop_pass w st t = Leave st0 [] ReadFailed) /\
  (running st0 = true -> t_ret t = true -> t_faces t = None ->
   loop_pass w st t = Leave st0 [] Raised).
Proof.
  cbn zeta. unfold loop_pass. repeat split.
  - intros ->. reflexivity.
  - intros -> ->. reflexivity.
  - intros -> -> ->. reflexivity.
Qed.

Lemma Qtrunc_integer (q : Q) (z : Z) : q == inject_Z z -> Qtrunc q = z.
Proof.
  destruct q as [n d]. unfold Qeq, Qtrunc. cbn. intro E.
  rewrite Z.mul_1_r in E. subst n. apply Z.quot_mul. discriminate.
Qed.

(** In exact arithmetic the restoring call hands back the captured
    percentage itself, and 50 when none was captured. *)
Lemma restore_balance_exact (st : Balancer Q) :
  let p := match original_system_balance st with
           | Some original => original
           | None => 50%Z
           end in
  restore_balance st
  = Some (if use_eqmac st then SetEqmacBalance p else SetSystemBalance p).
Proof.
  cbn zeta. unfold restore_balance, set_audio_balance.
  destruct (original_system_balance st) as [o|].
  - cbn [fdiv of_int fsub ExactQ].
    change (Qeq_bool (inject_Z 50) 0) with false. cbn iota.
    rewrite percentage_Q, (Qtrunc_integer _ o); [reflexivity|].
    field.
  - reflexivity.
Qed.

(** In binary64 the quotient, the subtraction and the truncation do not
    undo one another: ten of the percentages 0..100 come back one
    lower. *)
Lemma b64_restore_misses_eq :
  b64_restore_misses = [4; 5; 9; 10; 11; 21; 22; 29; 57; 58]%Z.
Proof. vm_compute. reflexivity. Qed.

(** C2, at the failing input: on the system backend the balance reads 29
    when key c calibrates; key q then quits.  The [finally] block
    releases the camera and makes its one restoring call, but with
    percentage 28, not the captured 29.  A captured 70 comes back as 70,
    and exact arithmetic would hand back 29. *)
Theorem restore_misses_original_in_binary64 :
  (exists st',
      track_head b64_system true (Some 640%Z) [tick_calibrate_29; tick_quit]
      = Finished st'
          [SetSystemBalance 30; CapRelease; DestroyAllWindows;
           SetSystemBalance 28] QuitKey /\
      original_system_balance st' = Some 29%Z) /\
  restored_percentage (F := B64.float) 29 = Some 28%Z /\
  restored_percentage (F := B64.float) 70 = Some 70%Z /\
  restored_percentage (F := Q) 29 = Some 29%Z /\
  restore_balance b64_default = Some (SetEqmacBalance 50).
Proof.
  split; [|repeat split; vm_compute; reflexivity].
  eexists. split; vm_compute; reflexivity.
Qed.

(** ** Calibration *)

(** Every successful [calibrate] stores what the actuator reads at that
    moment. *)
Lemma calibrate_recaptures {F : Type} `{PyFloat F} (st : Balancer F)
    (x : Z) (reply : option Z) :
  original_system_balance (calibrate st (Some x) reply)
  = Some (get_current_system_balance st reply).
Proof. reflexivity. Qed.

(** C4, at the failing input: on the system backend, a first calibration
    while the balance reads 70 and a second while it reads 30 leave
    [original_system_balance] at 30; the first capture is overwritten. *)
Theorem recalibration_overwrites_original :
  let st0 := toggle_audio_mode q_default in
  let st1 := calibrate st0 (Some 420%Z) (Some 70%Z) in
  let st2 := calibrate st1 (Some 300%Z) (Some 30%Z) in
  calibrate_succeeds st0 (Some 420%Z) = true /\
  calibrate_succeeds st1 (Some 300%Z) = true /\
  original_system_balance st1 = Some 70%Z /\
  original_system_balance st2 = Some 30%Z /\
  calibration_center_x st2 = Some 300%Z /\ calibrated st2 = true.
Proof. repeat split. Qed.

(** * Further properties of the code *)

Local Open Scope Z_scope.


(** ** Face selection *)

Lemma largest_from_split (rest pre mid : list Box) (best : Box) :
  Forall (fun c => area c < area best) pre ->
  Forall (fun c => area c <= area best) mid ->
  exists l1 l2,
    pre ++ best :: mid ++ rest = l1 ++ largest_from best rest :: l2 /\
    Forall (fun c => area c < area (largest_from best rest)) l1 /\
    Forall (fun c => area c <= area (largest_from best rest)) l2.
Proof.
  revert pre mid best.
  induction rest as [|c rest IH]; intros pre mid best P M.
  - exists pre, mid. rewrite app_nil_r. auto.
  - cbn [largest_from]. destruct (Z.ltb_spec (area best) (area c)) as [L|L].
    + destruct (IH (pre ++ best :: mid) [] c) as (l1 & l2 & E & A & B).
      * apply Forall_app. split.
        -- eapply Forall_impl; [|exact P]. cbn. intros; lia.
        -- constructor; [exact L|].
           eapply Forall_impl; [|exact M]. cbn. intros; lia.
      * constructor.
      * exists l1, l2. split; [|auto].
        rewrite <- E. cbn [app]. rewrite <- !app_assoc. reflexivity.
    + destruct (IH pre (mid ++ [c]) best) as (l1 & l2 & E & A & B).
      * exact P.
      * apply Forall_app. split; [exact M|]. constructor; [lia|constructor].
      * exists l1, l2. split; [|auto].
        rewrite <- E. rewrite <- !app_assoc. reflexivity.
Qed.

(** X1: The tracked face is the first box of largest area, and its center is
    [x + w // 2]; no face is tracked only when none was detected. *)
Theorem tracked_face_is_first_largest (faces : list Box) (c : Z) :
  face_center faces = Some c ->
  exists l1 x y w h l2,
    faces = l1 ++ (x, y, w, h) :: l2 /\
    c = x + w / 2 /\
    Forall (fun b => area b < w * h) l1 /\
    Forall (fun b => area b <= w * h) l2.
Proof.
  destruct faces as [|b rest]; [discriminate|].
  cbn [face_center].
  destruct (largest_from_split rest [] [] b) as (l1 & l2 & E & A & B);
    try constructor.
  cbn [app] in E.
  destruct (largest_from b rest) as [[[x y] w] h] eqn:L.
  intros [= <-]. exists l1, x, y, w, h, l2.
  split; [exact E|]. split; [reflexivity|]. split; assumption.
Qed.

Lemma face_center_none (faces : list Box) :
  face_center faces = None <-> faces = [].
Proof.
  destruct faces as [|b rest]; [tauto|].
  cbn [face_center]. destruct (largest_from b rest) as [[[x y] w] h].
  split; discriminate.
Qed.

Lemma tracked_face_is_first_largest_witness :
  exists l1 x y w h l2,
    [(10, 10, 30, 30); (200, 50, 60, 40); (400, 60, 40, 60)]
    = l1 ++ (x, y, w, h) :: l2 /\
    230 = x + w / 2 /\
    Forall (fun b => area b < w * h) l1 /\
    Forall (fun b => area b <= w * h) l2.
Proof.
  apply (tracked_face_is_first_largest
           [(10, 10, 30, 30); (200, 50, 60, 40); (400, 60, 40, 60)] 230).
  reflexivity.
Defined.


(** ** Invariants of the tracking loop *)

Section LoopInvariant.

Context {F : Type} `{PyFloat F}.

(** A property of the state that the commands keep. *)
Variable P : Balancer F -> Prop.

Hypothesis P_stop : forall st, P st -> P (set_running false st).
Hypothesis P_calibrate : forall st x reply, P st -> P (calibrate st x reply).
Hypothesis P_adjust : forall st, P st -> P (adjust_sensitivity st (lit 1 10)).
Hypothesis P_mode : forall st, P st -> P (toggle_audio_mode st).
Hypothesis P_filter : forall st, P st -> P (toggle_cartoon_filter st).
Hypothesis P_preview_off : forall st, P st -> P (set_show_preview false st).

Lemma handle_terminal_input_keeps (st : Balancer F) (line : string * option Z) :
  P st -> P (handle_terminal_input st line).
Proof.
  intro A. destruct line as [cmd reply]. unfold handle_terminal_input.
  repeat match goal with
         | |- context [if ?b then _ else _] => destruct b
         end; auto.
Qed.

Lemma terminal_lines_keep (lines : list (string * option Z)) (st : Balancer F) :
  P st -> P (fold_left handle_terminal_input lines st).
Proof.
  revert st. induction lines as [|l lines IH]; intros st A; cbn; [exact A|].
  apply IH, handle_terminal_input_keeps, A.
Qed.

Lemma preview_keeps (st : Balancer F) (w : Z) (face : option Z) (t : Tick F) :
  P st -> P (fst (preview st w face t)).
Proof.
  intro A. unfold preview.
  repeat match goal with
         | |- context [if ?b then _ else _] => destruct b
         end; cbn [fst]; auto.
Qed.

(** The face branch's two writes. *)
Hypothesis P_face : forall st x, P st -> P (set_last_face_position x st).
Hypothesis P_timer : forall st now, P st -> P (set_last_balance_update now st).

Lemma update_balance_keeps (st : Balancer F) (w x : Z) (now : F) :
  P st -> P (fst (update_balance st w x now)).
Proof.
  intro A. unfold update_balance.
  destruct (flt _ _); [|cbn [fst]; auto].
  destruct (calculate_audio_balance _ _ _); [|cbn [fst]; auto].
  destruct (set_audio_balance _ _); cbn [fst]; auto.
Qed.

Lemma loop_pass_keeps (w : Z) (st : Balancer F) (t : Tick F) :
  P st -> P (fst (pass_result (loop_pass w st t))).
Proof.
  intro A. unfold loop_pass.
  pose proof (terminal_lines_keep (t_lines t) st A) as A0.
  set (st0 := fold_left handle_terminal_input (t_lines t) st) in *.
  destruct (negb (running st0)); [exact A0|].
  destruct (negb (t_ret t)); [exact A0|].
  destruct (t_faces t) as [faces|]; [|exact A0].
  assert (A1 : P (fst match face_center faces with
                      | Some x => update_balance st0 w x (t_now t)
                      | None => (st0, Some [])
                      end)).
  { destruct (face_center faces); [apply update_balance_keeps, A0 | exact A0]. }
  destruct (match face_center faces with
            | Some x => update_balance st0 w x (t_now t)
            | None => (st0, Some [])
            end) as [st1 r]. cbn [fst] in A1.
  destruct r as [acts|]; [|exact A1].
  destruct (show_preview st1); [|exact A1].
  pose proof (preview_keeps st1 w (face_center faces) t A1) as A2.
  destruct (preview st1 w (face_center faces) t) as [st2 quit]. cbn [fst] in A2.
  destruct quit; exact A2.
Qed.

Lemma run_loop_keeps (w : Z) (ticks : list (Tick F)) :
  forall st : Balancer F, P st -> P (fst (fst (run_loop w st ticks))).
Proof.
  induction ticks as [|t ticks IH]; intros st A; [exact A|].
  cbn [run_loop].
  pose proof (loop_pass_keeps w st t A) as A1.
  destruct (loop_pass w st t) as [st' acts|st' acts why]; cbn in A1.
  - specialize (IH st' A1).
    destruct (run_loop w st' ticks) as [[st'' acts'] why]. exact IH.
  - exact A1.
Qed.

End LoopInvariant.


Section LoopFacts.

Context {F : Type} `{PyFloat F}.

(** What the terminal thread never writes. *)
Lemma terminal_lines_frame (lines : list (string * option Z))
    (st : Balancer F) :
  let st0 := fold_left handle_terminal_input lines st in
  show_preview st0 = show_preview st /\
  last_face_position st0 = last_face_position st.
Proof.
  cbn zeta. split.
  - apply (terminal_lines_keep
             (fun s => show_preview s = show_preview st)); auto.
    intros s x reply A. unfold calibrate.
    destruct x; [exact A|]. destruct (last_face_position s); exact A.
  - apply (terminal_lines_keep
             (fun s => last_face_position s = last_face_position st)); auto.
    intros s x reply A. unfold calibrate.
    destruct x; [exact A|].
    destruct (last_face_position s) eqn:E; cbn; congruence.
Qed.

Lemma update_balance_show_preview (st : Balancer F) (w x : Z) (now : F) :
  show_preview (fst (update_balance st w x now)) = show_preview st.
Proof.
  apply (update_balance_keeps (fun s => show_preview s = show_preview st));
    auto.
Qed.

(** One pass with the preview off: it stays off and key q is not read. *)
Lemma loop_pass_preview_off (w : Z) (st : Balancer F) (t : Tick F) :
  show_preview st = false ->
  match loop_pass w st t with
  | Continue st' _ => show_preview st' = false
  | Leave st' _ why => show_preview st' = false /\ why <> QuitKey
  end.
Proof.
  intro A. unfold loop_pass.
  destruct (terminal_lines_frame (t_lines t) st) as [S0 _].
  set (st0 := fold_left handle_terminal_input (t_lines t) st) in *.
  rewrite A in S0.
  destruct (negb (running st0)); [split; [exact S0 | discriminate]|].
  destruct (negb (t_ret t)); [split; [exact S0 | discriminate]|].
  destruct (t_faces t) as [faces|]; [|split; [exact S0 | discriminate]].
  assert (S1 : show_preview (fst match face_center faces with
                                 | Some x => update_balance st0 w x (t_now t)
                                 | None => (st0, Some [])
                                 end) = false).
  { destruct (face_center faces); [|exact S0].
    rewrite update_balance_show_preview. exact S0. }
  destruct (match face_center faces with
            | Some x => update_balance st0 w x (t_now t)
            | None => (st0, Some [])
            end) as [st1 r]. cbn [fst] in S1.
  destruct r as [acts|]; [|split; [exact S1 | discriminate]].
  rewrite S1. exact S1.
Qed.

(** X4: Once the preview is off it stays off for the rest of the run, and the
    loop is then never left by key q: only the terminal, a failed read or
    an exception can end it. *)
Theorem preview_off_is_permanent (w : Z) (ticks : list (Tick F)) :
  forall st : Balancer F,
    show_preview st = false ->
    show_preview (fst (fst (run_loop w st ticks))) = false /\
    snd (run_loop w st ticks) <> Some QuitKey.
Proof.
  induction ticks as [|t ticks IH]; intros st A; [split; [exact A|discriminate]|].
  cbn [run_loop].
  pose proof (loop_pass_preview_off w st t A) as P.
  destruct (loop_pass w st t) as [st' acts|st' acts why].
  - specialize (IH st' P).
    destruct (run_loop w st' ticks) as [[st'' acts'] why]. exact IH.
  - cbn. destruct P as [P Q]. split; [exact P|]. congruence.
Qed.

(** X5: Before any face was seen, a pass without a face switches the preview
    off, whatever the drawing calls and the key do: the status text reads
    a [balance] that was never assigned. *)
Theorem faceless_pass_disables_preview (w : Z) (st : Balancer F) (t : Tick F) :
  let st0 := fold_left handle_terminal_input (t_lines t) st in
  running st0 = true -> t_ret t = true -> t_faces t = Some [] ->
  last_face_position st = None -> show_preview st = true ->
  loop_pass w st t = Continue (set_show_preview false st0) [].
Proof.
  cbn zeta. intros R T TF L S. unfold loop_pass.
  destruct (terminal_lines_frame (t_lines t) st) as [S0 L0].
  set (st0 := fold_left handle_terminal_input (t_lines t) st) in *.
  rewrite R, T, TF. cbn [negb face_center]. rewrite S0, S.
  unfold preview. rewrite L0, L, andb_false_r. reflexivity.
Qed.

(** Nothing sets [running] back to true. *)
Lemma handle_terminal_input_stopped (st : Balancer F)
    (line : string * option Z) :
  running st = false -> running (handle_terminal_input st line) = false.
Proof.
  apply (handle_terminal_input_keeps (fun s => running s = false)); auto.
  intros s x reply A. unfold calibrate.
  destruct x; [exact A|]. destruct (last_face_position s); exact A.
Qed.

Lemma terminal_lines_stopped (lines : list (string * option Z))
    (st : Balancer F) :
  running st = false ->
  running (fold_left handle_terminal_input lines st) = false.
Proof.
  revert st. induction lines as [|l lines IH]; intros st A; [exact A|].
  cbn. apply IH, handle_terminal_input_stopped, A.
Qed.

Lemma terminal_quit_stops (lines : list (string * option Z))
    (st : Balancer F) (reply : option Z) :
  In ("q"%string, reply) lines ->
  running (fold_left handle_terminal_input lines st) = false.
Proof.
  revert st. induction lines as [|l lines IH]; intros st I; [contradiction|].
  destruct I as [E|I].
  - subst l. cbn. apply terminal_lines_stopped. reflexivity.
  - cbn. apply IH, I.
Qed.

Lemma terminal_quit_leaves_loop (w : Z) (st : Balancer F) (t : Tick F)
    (reply : option Z) (rest : list (Tick F)) :
  In ("q"%string, reply) (t_lines t) ->
  let st0 := fold_left handle_terminal_input (t_lines t) st in
  running st0 = false /\
  run_loop w st (t :: rest) = (st0, [], Some Stopped).
Proof.
  intro I. cbn zeta.
  pose proof (terminal_quit_stops (t_lines t) st reply I) as R.
  split; [exact R|].
  cbn [run_loop]. unfold loop_pass. rewrite R. reflexivity.
Qed.

End LoopFacts.



Section TraceFacts.

Context {F : Type} `{PyFloat F}.

(** The loop itself only ever calls the actuator. *)
Lemma run_loop_only_actuates (w : Z) (ticks : list (Tick F)) :
  forall st : Balancer F,
    Forall (fun a => is_actuator a = true) (snd (fst (run_loop w st ticks))).
Proof.
  induction ticks as [|t ticks IH]; intro st; [constructor|].
  cbn [run_loop].
  pose proof (loop_pass_gate w st t) as G.
  destruct (loop_pass w st t) as [st' acts|st' acts why]; cbn [pass_result] in G.
  - specialize (IH st').
    destruct (run_loop w st' ticks) as [[st'' acts'] why]. cbn [fst snd] in *.
    apply Forall_app. split; [|exact IH].
    destruct G as [_ [[-> _]|(a & _ & _ & -> & A & _)]]; repeat constructor.
    exact A.
  - cbn [fst snd].
    destruct G as [_ [[-> _]|(a & _ & _ & -> & A & _)]]; repeat constructor.
    exact A.
Qed.

Lemma releases_actuators (acts : list Action) :
  Forall (fun a => is_actuator a = true) acts -> releases acts = 0%nat.
Proof.
  unfold releases. induction 1 as [|a acts A _ IH]; [reflexivity|].
  cbn [filter]. destruct a; try discriminate; exact IH.
Qed.

Lemma releases_app (l1 l2 : list Action) :
  releases (l1 ++ l2) = (releases l1 + releases l2)%nat.
Proof. unfold releases. rewrite filter_app, length_app. reflexivity. Qed.

Lemma restore_balance_actuates (st : Balancer F) (a : Action) :
  restore_balance st = Some a -> is_actuator a = true.
Proof.
  unfold restore_balance, set_audio_balance.
  destruct (original_system_balance st).
  - destruct (fdiv _ _); [|discriminate].
    destruct (balance_percentage _); [|discriminate].
    intros [= <-]. destruct (use_eqmac st); reflexivity.
  - destruct (balance_percentage _); [|discriminate].
    intros [= <-]. destruct (use_eqmac st); reflexivity.
Qed.

(** X7: A finished session released the camera exactly once, after every
    balance update of the loop; after the release come only the closing
    of the preview (when it is still on) and one last balance call. *)
Theorem finished_trace_shape (st st' : Balancer F) (opened : bool)
    (first : option Z) (ticks : list (Tick F)) (acts : list Action)
    (why : Exit) :
  track_head st opened first ticks = Finished st' acts why ->
  exists updates last,
    acts = updates
             ++ CapRelease
                  :: (if show_preview st' then [DestroyAllWindows] else [])
             ++ [last] /\
    Forall (fun a => is_actuator a = true) updates /\
    is_actuator last = true /\
    restore_balance st' = Some last /\
    releases acts = 1%nat.
Proof.
  unfold track_head.
  destruct opened; [|discriminate]. cbn [negb].
  destruct first as [w|]; [|discriminate].
  pose proof (run_loop_only_actuates w ticks st) as A.
  destruct (run_loop w st ticks) as [[st1 updates] [why1|]]; [|discriminate].
  cbn [fst snd] in A. unfold teardown.
  destruct (restore_balance st1) as [last|] eqn:R; [|discriminate].
  intros [= <- <- <-].
  exists updates, last.
  pose proof (restore_balance_actuates st1 last R) as L.
  split; [reflexivity|]. split; [exact A|]. split; [exact L|].
  split; [exact R|].
  rewrite releases_app, (releases_actuators _ A).
  unfold releases. cbn [filter].
  destruct (show_preview st1); cbn [app filter]; destruct last;
    try discriminate; reflexivity.
Qed.

(** If the camera is closed or the first read fails, nothing is done at
    all: no balance is touched and no teardown runs. *)
Lemma track_head_not_started (st : Balancer F) (opened : bool)
    (first : option Z) (ticks : list (Tick F)) :
  opened = false \/ first = None ->
  track_head st opened first ticks = NotStarted.
Proof.
  intros [->| ->]; [reflexivity|]. unfold track_head.
  destruct (negb opened); reflexivity.
Qed.

(** X8: What a pass does to the last known face position. *)
Theorem last_face_position_is_retained (w : Z) (st : Balancer F) (t : Tick F) :
  let st0 := fold_left handle_terminal_input (t_lines t) st in
  let st' := fst (pass_result (loop_pass w st t)) in
  (running st0 = true -> t_ret t = true ->
   forall faces c, t_faces t = Some faces -> face_center faces = Some c ->
                   last_face_position st' = Some c) /\
  (t_faces t = Some [] \/ t_faces t = None ->
   last_face_position st' = last_face_position st).
Proof.
  cbn zeta.
  destruct (terminal_lines_frame (t_lines t) st) as [_ L0].
  assert (PV : forall s face, last_face_position (fst (preview s w face t))
                              = last_face_position s).
  { intros s face.
    apply (preview_keeps (fun u => last_face_position u = last_face_position s));
      auto.
    intros u x reply A. unfold calibrate.
    destruct x; [exact A|].
    destruct (last_face_position u) eqn:E; cbn; congruence. }
  unfold loop_pass.
  set (st0 := fold_left handle_terminal_input (t_lines t) st) in *.
  split.
  - intros R T faces c TF FC. rewrite R, T, TF, FC. cbn [negb].
    assert (U : last_face_position (fst (update_balance st0 w c (t_now t)))
                = Some c).
    { unfold update_balance.
      destruct (flt _ _); [|reflexivity].
      destruct (calculate_audio_balance _ _ _); [|reflexivity].
      destruct (set_audio_balance _ _); reflexivity. }
    destruct (update_balance st0 w c (t_now t)) as [st1 r]. cbn [fst] in U.
    destruct r as [acts|]; [|exact U].
    destruct (show_preview st1); [|exact U].
    specialize (PV st1 (Some c)).
    destruct (preview st1 w (Some c) t) as [st2 quit]. cbn [fst] in PV.
    destruct quit; cbn; congruence.
  - intros TF.
    destruct (negb (running st0)); [exact L0|].
    destruct (negb (t_ret t)); [exact L0|].
    destruct TF as [-> | ->]; [|exact L0].
    cbn [face_center].
    destruct (show_preview st0); [|exact L0].
    specialize (PV st0 None).
    destruct (preview st0 w None t) as [st2 quit]. cbn [fst] in PV.
    destruct quit; cbn; congruence.
Qed.

End TraceFacts.

Local Open Scope Q_scope.


Lemma adjust_sensitivity_in_range (st : Balancer Q) (delta : Q) :
  sensitivity_in_range (sensitivity (adjust_sensitivity st delta)).
Proof.
  unfold adjust_sensitivity. cbn [sensitivity set_sensitivity].
  destruct (_ && _); [split; discriminate|].
  destruct (clampQ_cases (2 # 10) 2 (sensitivity st + delta))
    as [[A E]|[[A E]|[[A B] E]]]; try reflexivity;
    unfold clampQ in E; cbn [lit fadd ExactQ]; rewrite E;
    unfold sensitivity_in_range; lra.
Qed.

(** X2: Whatever the keys, the terminal lines and the frames, a sensitivity
    that starts in range is in range when the loop stops or pauses; in
    both arithmetics. *)
Theorem sensitivity_stays_in_range :
  (forall (w : Z) (st : Balancer Q) (ticks : list (Tick Q)),
      sensitivity_in_range (sensitivity st) ->
      sensitivity_in_range (sensitivity (fst (fst (run_loop w st ticks))))) /\
  (forall (w : Z) (st : Balancer B64.float) (ticks : list (Tick B64.float)),
      b64_between (B64.literal 2 10) (B64.literal 2 1) (sensitivity st) ->
      b64_between (B64.literal 2 10) (B64.literal 2 1)
        (sensitivity (fst (fst (run_loop w st ticks))))).
Proof.
  split; intros w st ticks A.
  - apply (run_loop_keeps
             (fun s : Balancer Q => sensitivity_in_range (sensitivity s)));
      try (intros; assumption).
    + intros s x reply B. unfold calibrate.
      destruct x; [exact B|]. destruct (last_face_position s); exact B.
    + intros s _. apply adjust_sensitivity_in_range.
  - apply (run_loop_keeps
             (fun s : Balancer B64.float =>
                b64_between (B64.literal 2 10) (B64.literal 2 1)
                  (sensitivity s)));
      try (intros; assumption).
    + intros s x reply B. unfold calibrate.
      destruct x; [exact B|]. destruct (last_face_position s); exact B.
    + intros s _. apply b64_adjusted_sensitivity_between.
Qed.

Lemma sensitivity_stays_in_range_witness :
  sensitivity_in_range (sensitivity (fst (fst (run_loop 640 q_default burst)))).
Proof.
  apply (proj1 sensitivity_stays_in_range 640%Z q_default burst).
  split; discriminate.
Defined.

(** X3: A positive increment never leaves the sensitivity above 1.9: the wrap
    makes the values above 1.9, 2.0 included, unreachable by increments.
    In both arithmetics, from any starting value. *)
Theorem increment_never_passes_1_9 :
  (forall (st : Balancer Q) (delta : Q),
      0 < delta -> sensitivity (adjust_sensitivity st delta) <= 19 # 10) /\
  (forall (st : Balancer B64.float) (delta : B64.float),
      B64.ltb (B64.of_Z 0) delta = true ->
      B64.ltb (B64.literal 19 10) (sensitivity (adjust_sensitivity st delta))
      = false).
Proof.
  split; intros st delta D.
  - unfold adjust_sensitivity. cbn [sensitivity set_sensitivity].
    cbn [flt lit of_int ExactQ].
    apply Qlt_bool_true in D. change (inject_Z 0) with 0. rewrite D.
    rewrite andb_true_r.
    destruct (Qlt_bool_spec (19 # 10)
                (py_max (2 # 10) (py_min (2 # 1) (fadd (sensitivity st) delta))))
      as [L|L]; [discriminate | exact L].
  - unfold adjust_sensitivity. cbn [sensitivity set_sensitivity].
    cbn [flt lit of_int Binary64]. rewrite D, andb_true_r.
    set (c := py_max (B64.literal 2 10)
                (py_min (B64.literal 2 1) (fadd (sensitivity st) delta))).
    destruct (B64.ltb (B64.literal 19 10) c) eqn:L; [reflexivity | exact L].
Qed.

Lemma increment_never_passes_1_9_witness :
  sensitivity (adjust_sensitivity (set_sensitivity (185 # 100) q_default)
                 (1 # 10)) <= 19 # 10.
Proof.
  apply (proj1 increment_never_passes_1_9). reflexivity.
Defined.


(** ** More on the mapper *)

Lemma clampQ_odd (r1 r2 : Q) :
  r1 == - r2 -> clampQ (-1) 1 r1 == - clampQ (-1) 1 r2.
Proof.
  intro E.
  destruct (clampQ_cases (-1) 1 r1) as [[A1 E1]|[[A1 E1]|[[A1 B1] E1]]];
    try reflexivity;
  destruct (clampQ_cases (-1) 1 r2) as [[A2 E2]|[[A2 E2]|[[A2 B2] E2]]];
    try reflexivity; rewrite E1, E2; lra.
Qed.

(** X9: Positions mirrored about the center get opposite balances. *)
Theorem balance_is_odd_about_center (st : Balancer Q) (w x1 x2 : Z)
    (c b1 b2 : Q) :
  center_position st w = Some c ->
  inject_Z x1 + inject_Z x2 == 2 * c ->
  calculate_audio_balance st x1 w = Some b1 ->
  calculate_audio_balance st x2 w = Some b2 ->
  b1 == - b2.
Proof.
  intros C M E1 E2. apply center_position_inv in C. subst c.
  apply calculate_inv in E1, E2. subst b1 b2.
  apply Qopp_comp, clampQ_odd.
  unfold rawQ, Qdiv. rewrite !offsetQ_eq.
  setoid_replace (inject_Z x1 - centerQ st w)
    with (- (inject_Z x2 - centerQ st w)) by lra.
  ring.
Qed.

Lemma balance_is_odd_about_center_witness :
  - (4000 # 10240) == - - (-4000 # 10240).
Proof.
  exact (balance_is_odd_about_center q_default 640 420 220
           (inject_Z 640 / inject_Z 2) _ _ eq_refl eq_refl eq_refl eq_refl).
Defined.



Lemma Qinv_antitone (a b : Q) : 0 < a -> a <= b -> / b <= / a.
Proof.
  intros A L.
  assert (B : 0 < b) by lra.
  apply (Qmult_le_l _ _ (a * b)); [apply Qmult_lt_0_compat; assumption|].
  setoid_replace (a * b * / b) with a by (field; lra).
  setoid_replace (a * b * / a) with b by (field; lra).
  exact L.
Qed.

(** X11: A larger sensitivity coefficient gives a balance of smaller or equal
    magnitude: the coefficient divides the offset. *)
Theorem larger_sensitivity_softens_balance (st : Balancer Q) (w x : Z)
    (c s1 s2 b1 b2 : Q) :
  center_position st w = Some c -> 0 < c ->
  0 < s1 -> s1 <= s2 ->
  calculate_audio_balance (set_sensitivity s1 st) x w = Some b1 ->
  calculate_audio_balance (set_sensitivity s2 st) x w = Some b2 ->
  Qabs b2 <= Qabs b1.
Proof.
  intros C P S1 S12 E1 E2. apply center_position_inv in C. subst c.
  apply calculate_inv in E1, E2. subst b1 b2. rewrite !Qabs_opp.
  unfold rawQ.
  change (centerQ (set_sensitivity s1 st) w) with (centerQ st w).
  change (centerQ (set_sensitivity s2 st) w) with (centerQ st w).
  change (offsetQ (set_sensitivity s1 st) x w) with (offsetQ st x w).
  change (offsetQ (set_sensitivity s2 st) x w) with (offsetQ st x w).
  cbn [sensitivity set_sensitivity].
  set (o := offsetQ st x w). set (cc := centerQ st w) in *.
  assert (D1 : 0 < cc * s1) by (apply Qmult_lt_0_compat; assumption).
  assert (D12 : cc * s1 <= cc * s2)
    by (apply Qmult_le_l; assumption).
  pose proof (Qinv_antitone _ _ D1 D12) as I.
  assert (I2 : 0 < / (cc * s2)) by (apply Qinv_lt_0_compat; lra).
  assert (Z0 : clampQ (-1) 1 0 == 0) by reflexivity.
  destruct (Qlt_le_dec o 0) as [N|N].
  - assert (R12 : o / (cc * s1) <= o / (cc * s2)).
    { unfold Qdiv. setoid_replace (o * / (cc * s1)) with (- ((- o) * / (cc * s1))) by ring.
      setoid_replace (o * / (cc * s2)) with (- ((- o) * / (cc * s2))) by ring.
      apply Qopp_le_compat. apply Qmult_le_l; [lra | exact I]. }
    assert (R2 : o / (cc * s2) <= 0).
    { unfold Qdiv. setoid_replace (o * / (cc * s2)) with (- ((- o) * / (cc * s2))) by ring.
      assert (0 < (- o) * / (cc * s2)) by (apply Qmult_lt_0_compat; lra). lra. }
    pose proof (clampQ_mono _ _ R12) as M1.
    pose proof (clampQ_mono _ _ R2) as M2. rewrite Z0 in M2.
    rewrite !Qabs_neg by lra. lra.
  - assert (R12 : o / (cc * s2) <= o / (cc * s1)).
    { unfold Qdiv. destruct (Qeq_dec o 0) as [Z|Z].
      - rewrite Z. lra.
      - apply Qmult_le_l; [lra | exact I]. }
    assert (R2 : 0 <= o / (cc * s2)).
    { unfold Qdiv. apply Qmult_le_0_compat; lra. }
    pose proof (clampQ_mono _ _ R12) as M1.
    pose proof (clampQ_mono _ _ R2) as M2. rewrite Z0 in M2.
    rewrite !Qabs_pos by lra. lra.
Qed.

Lemma larger_sensitivity_softens_balance_witness :
  Qabs (- (400 # 1280)) <= Qabs (- (4000 # 10240)).
Proof.
  apply (larger_sensitivity_softens_balance q_default 640 420
           (inject_Z 640 / inject_Z 2) (8 # 10) 1).
  - reflexivity.
  - reflexivity.
  - reflexivity.
  - discriminate.
  - reflexivity.
  - vm_compute. reflexivity.
Defined.


(** X12: The menubar's inline mapper is the balancer's mapper before any
    calibration, in any arithmetic. *)
Theorem front_ends_share_the_mapper {F : Type} `{PyFloat F}
    (st : Balancer F) (app : Menubar.App F) (x w : Z) :
  calibrated st = false \/ calibration_center_x st = None ->
  Menubar.sensitivity app = sensitivity st ->
  Menubar.tracked_balance app x w = calculate_audio_balance st x w.
Proof.
  intros U S.
  unfold Menubar.tracked_balance, calculate_audio_balance, center_position,
    offset_from_center.
  rewrite S.
  assert (E : match calibrated st, calibration_center_x st with
              | true, Some _ => false
              | _, _ => true
              end = true).
  { destruct U as [-> | ->]; [reflexivity|]. destruct (calibrated st); reflexivity. }
  destruct (calibrated st), (calibration_center_x st); try discriminate;
    destruct (fdiv (of_int w) (of_int 2)); reflexivity.
Qed.

Lemma front_ends_share_the_mapper_witness :
  Menubar.tracked_balance (Menubar.init (B64.of_Z 0)) 420 640
  = calculate_audio_balance b64_default 420 640.
Proof.
  apply (front_ends_share_the_mapper b64_default (Menubar.init (B64.of_Z 0))).
  - left. reflexivity.
  - reflexivity.
Defined.

Lemma percentage_in_bounds (b : Q) :
  -1 <= b <= 1 ->
  exists p, balance_percentage b = Some p /\ (0 <= p <= 100)%Z.
Proof.
  intros [L U]. exists (Qtrunc ((b + 1) * 50)).
  split; [apply percentage_Q|].
  assert (P : 0 <= (b + 1) * 50) by lra.
  rewrite (Qtrunc_nonneg _ P). split.
  - change 0%Z with (Qfloor 0). apply Qfloor_resp_le. exact P.
  - change 100%Z with (Qfloor 100). apply Qfloor_resp_le. lra.
Qed.

Lemma update_balance_in_bounds (st : Balancer Q) (w x : Z) (now : Q)
    (acts : list Action) :
  snd (update_balance st w x now) = Some acts -> Forall pct_in_bounds acts.
Proof.
  unfold update_balance.
  destruct (flt _ _); [|intros [= <-]; constructor].
  destruct (calculate_audio_balance _ _ _) as [b|] eqn:E; [|discriminate].
  apply calculate_inv in E.
  assert (R : -1 <= b <= 1) by (subst b; apply neg_clamp_range).
  destruct (percentage_in_bounds b R) as (p & Pp & B).
  unfold set_audio_balance. rewrite Pp. cbn [snd]. intros [= <-].
  constructor; [|constructor].
  exists p. split; [|exact B]. destruct (use_eqmac _); reflexivity.
Qed.

Lemma loop_pass_in_bounds (w : Z) (st : Balancer Q) (t : Tick Q) :
  Forall pct_in_bounds (snd (pass_result (loop_pass w st t))).
Proof.
  unfold loop_pass.
  set (st0 := fold_left handle_terminal_input (t_lines t) st).
  destruct (negb (running st0)); [constructor|].
  destruct (negb (t_ret t)); [constructor|].
  destruct (t_faces t) as [faces|]; [|constructor].
  assert (A : forall acts,
             snd match face_center faces with
                 | Some x => update_balance st0 w x (t_now t)
                 | None => (st0, Some [])
                 end = Some acts -> Forall pct_in_bounds acts).
  { destruct (face_center faces).
    - apply update_balance_in_bounds.
    - intros acts [= <-]. constructor. }
  destruct (match face_center faces with
            | Some x => update_balance st0 w x (t_now t)
            | None => (st0, Some [])
            end) as [st1 r]. cbn [snd] in A.
  destruct r as [acts|]; [|constructor].
  specialize (A acts eq_refl).
  destruct (show_preview st1); [|exact A].
  destruct (preview st1 w (face_center faces) t) as [st2 quit].
  destruct quit; exact A.
Qed.

(** X13: Every balance update the loop makes hands the actuator a percentage
    between 0 and 100. *)
Theorem loop_percentages_in_bounds (w : Z) (ticks : list (Tick Q)) :
  forall st : Balancer Q,
    Forall (fun a => exists p, actuator_pct a = Some p /\ (0 <= p <= 100)%Z)
      (snd (fst (run_loop w st ticks))).
Proof.
  induction ticks as [|t ticks IH]; intro st; [constructor|].
  cbn [run_loop].
  pose proof (loop_pass_in_bounds w st t) as A.
  destruct (loop_pass w st t) as [st' acts|st' acts why]; cbn in A.
  - specialize (IH st').
    destruct (run_loop w st' ticks) as [[st'' acts'] why]. cbn [fst snd] in *.
    apply Forall_app. split; assumption.
  - exact A.
Qed.

(** In binary64, for every captured percentage from 0 to 100 the
    [finally] block hands back that percentage or the one below it, and
    the one below exactly for 4, 5, 9, 10, 11, 21, 22, 29, 57 and 58. *)
Lemma b64_restored_percentage_table (p : Z) :
  (0 <= p <= 100)%Z ->
  exists q,
    restored_percentage (F := B64.float) p = Some q /\
    (q = p \/ q = (p - 1)%Z) /\
    (q = (p - 1)%Z <-> In p [4; 5; 9; 10; 11; 21; 22; 29; 57; 58]%Z).
Proof.
  intro R.
  assert (A : forallb
                (fun p =>
                   match restored_percentage (F := B64.float) p with
                   | Some q =>
                       ((q =? p) || (q =? p - 1))%Z
                       && Bool.eqb (q =? p - 1)%Z
                            (existsb (Z.eqb p)
                               [4; 5; 9; 10; 11; 21; 22; 29; 57; 58]%Z)
                   | None => false
                   end) (zrange 0 101) = true)
    by (vm_compute; reflexivity).
  rewrite forallb_forall in A.
  assert (I : In p (zrange 0 101)).
  { unfold zrange. apply in_map_iff. exists (Z.to_nat p).
    split; [lia|]. apply in_seq. lia. }
  specialize (A p I).
  destruct (restored_percentage p) as [q|]; [|discriminate].
  exists q. split; [reflexivity|].
  apply andb_true_iff in A. destruct A as [A B].
  apply orb_true_iff in A. apply eqb_prop in B.
  split; [destruct A as [A|A]; apply Z.eqb_eq in A; auto|].
  rewrite <- Z.eqb_eq, B, existsb_exists. split.
  - intros (y & Y & E). apply Z.eqb_eq in E. subst y. exact Y.
  - intro Y. exists p. split; [exact Y | apply Z.eqb_refl].
Qed.

Lemma b64_restored_percentage_table_witness :
  exists q,
    restored_percentage (F := B64.float) 57 = Some q /\
    (q = 57%Z \/ q = (57 - 1)%Z) /\
    (q = (57 - 1)%Z <-> In 57%Z [4; 5; 9; 10; 11; 21; 22; 29; 57; 58]%Z).
Proof.
  apply (b64_restored_percentage_table 57). lia.
Defined.


(** ** The menubar front-end *)

Section MenubarFacts.

Context {F : Type} `{PyFloat F}.

Lemma menubar_update_balance_running (st : Menubar.App F)
    (t : Menubar.Tick F) (x : Z) :
  Menubar.running (fst (Menubar.update_balance st t x)) = Menubar.running st.
Proof.
  unfold Menubar.update_balance.
  repeat match goal with
         | |- context [if ?b then _ else _] => destruct b
         | |- context [match ?b with Some _ => _ | None => _ end] => destruct b
         end; reflexivity.
Qed.

(** The tracking thread never writes [running] and never releases the
    camera or resets the balance: when it ends on its own (Esc, a failed
    read, a closed camera, an exception) the app still counts as
    tracking, and every action it made is a balance update. *)
Lemma menubar_thread_leaves_running (st : Menubar.App F)
    (t : Menubar.Tick F) :
  let st0 := fold_left Menubar.ui_event (Menubar.t_events t) st in
  let '(st', acts, _) := Menubar.loop_pass st t in
  Menubar.running st' = Menubar.running st0 /\
  Forall (fun a => is_actuator a = true) acts.
Proof.
  cbn zeta.
  pose proof (menubar_loop_pass_gate st t) as G.
  unfold Menubar.loop_pass in *.
  set (st0 := fold_left Menubar.ui_event (Menubar.t_events t) st) in *.
  destruct (negb (Menubar.running st0)); [split; [reflexivity|constructor]|].
  destruct (negb (Menubar.t_opened t)); [split; [reflexivity|constructor]|].
  destruct (negb (Menubar.t_ret t)); [split; [reflexivity|constructor]|].
  destruct (Menubar.t_faces t) as [faces|]; [|split; [reflexivity|constructor]].
  assert (R : Menubar.running
                (fst match face_center faces with
                     | Some x => Menubar.update_balance st0 t x
                     | None => (st0, Some [])
                     end) = Menubar.running st0).
  { destruct (face_center faces); [|reflexivity].
    apply menubar_update_balance_running. }
  destruct (match face_center faces with
            | Some x => Menubar.update_balance st0 t x
            | None => (st0, Some [])
            end) as [st1 r]. cbn [fst] in R.
  destruct r as [acts|]; [|split; [exact R|constructor]].
  assert (A : Forall (fun a => is_actuator a = true) acts).
  { repeat match type of G with
           | context [if ?b then _ else _] => destruct b
           end;
      destruct G as [_ [[-> _]|(a & -> & A & _)]]; repeat constructor;
      exact A. }
  repeat match goal with
         | |- context [if ?b then _ else _] => destruct b
         end; split; assumption.
Qed.

End MenubarFacts.

Section MenubarRun.

Context {F : Type} `{PyFloat F}.

(** Without a click in the menu, the loop ends with [running] as it
    found it, and all it did was update the balance. *)
Lemma menubar_loop_keeps_running (ticks : list (Menubar.Tick F)) :
  forall st : Menubar.App F,
    Forall (fun t => Menubar.t_events t = []) ticks ->
    Menubar.running (fst (Menubar.run_loop st ticks)) = Menubar.running st /\
    Forall (fun a => is_actuator a = true) (snd (Menubar.run_loop st ticks)).
Proof.
  induction ticks as [|t ticks IH]; intros st E; [split; [reflexivity|constructor]|].
  cbn [Menubar.run_loop].
  pose proof (menubar_thread_leaves_running st t) as P. cbn zeta in P.
  rewrite (Forall_inv E) in P. cbn [fold_left] in P.
  destruct (Menubar.loop_pass st t) as [[st' acts] continue].
  destruct P as [R A].
  destruct continue; [|split; assumption].
  destruct (IH st' (Forall_inv_tail E)) as [R' A'].
  destruct (Menubar.run_loop st' ticks) as [st'' acts']. cbn [fst snd] in *.
  split; [congruence | apply Forall_app; split; assumption].
Qed.

(** The loop inside the thread is [Menubar.run_loop]. *)
Lemma menubar_thread_loop_run (ticks : list (Menubar.Tick F)) :
  forall (vw : bool) (st : Menubar.App F),
    fst (fst (menubar_thread_loop vw st ticks)) = Menubar.run_loop st ticks.
Proof.
  induction ticks as [|t ticks IH]; intros vw st; [reflexivity|].
  cbn [menubar_thread_loop Menubar.run_loop].
  destruct (Menubar.loop_pass st t) as [[st' acts] [|]]; [|reflexivity].
  rewrite <- (IH (fold_left ui_video_window (Menubar.t_events t) vw
                  || pass_shows_window st t)%bool st').
  destruct (menubar_thread_loop _ st' ticks) as [[[st'' acts'] vw'] l].
  reflexivity.
Qed.

(** A pass after which the loop goes on has shown the window. *)
Lemma pass_goes_on_shows (st : Menubar.App F) (t : Menubar.Tick F) :
  snd (Menubar.loop_pass st t) = true -> pass_shows_window st t = true.
Proof.
  unfold Menubar.loop_pass, pass_shows_window.
  set (st0 := fold_left Menubar.ui_event (Menubar.t_events t) st).
  destruct (Menubar.running st0); [|discriminate].
  destruct (Menubar.t_opened t); [|discriminate].
  destruct (Menubar.t_ret t); [|discriminate].
  destruct (Menubar.t_faces t) as [faces|]; [|discriminate].
  cbn [negb andb].
  destruct (match face_center faces with
            | Some x => Menubar.update_balance st0 t x
            | None => (st0, Some [])
            end) as [st1 [acts|]]; [|discriminate].
  destruct (Menubar.last_face_position st1); [|reflexivity].
  destruct (Menubar.t_frame_width t =? 0)%Z; [discriminate|reflexivity].
Qed.

(** The window flag, once set, stays set while the menu is left alone. *)
Lemma window_shown_keeps (ticks : list (Menubar.Tick F)) :
  forall st : Menubar.App F,
    Forall (fun t => Menubar.t_events t = []) ticks ->
    window_shown true st ticks = true.
Proof.
  unfold window_shown.
  induction ticks as [|t ticks IH]; intros st E; [reflexivity|].
  cbn [menubar_thread_loop]. rewrite (Forall_inv E). cbn [fold_left orb].
  destruct (Menubar.loop_pass st t) as [[st' acts] [|]]; [|reflexivity].
  specialize (IH st' (Forall_inv_tail E)).
  destruct (menubar_thread_loop true st' ticks) as [[[st'' acts'] vw'] l].
  exact IH.
Qed.

(** A first pass after which the loop goes on leaves the flag set. *)
Lemma window_shown_after_pass (t : Menubar.Tick F)
    (ticks : list (Menubar.Tick F)) (vw : bool) (st : Menubar.App F) :
  Forall (fun t => Menubar.t_events t = []) ticks ->
  snd (Menubar.loop_pass st t) = true ->
  window_shown vw st (t :: ticks) = true.
Proof.
  intros E G. pose proof (pass_goes_on_shows st t G) as S.
  unfold window_shown. cbn [menubar_thread_loop]. rewrite S, orb_true_r.
  destruct (Menubar.loop_pass st t) as [[st' acts] c]. cbn [snd] in G.
  subst c. pose proof (window_shown_keeps ticks st' E) as K.
  unfold window_shown in K.
  destruct (menubar_thread_loop true st' ticks) as [[[st'' acts'] vw'] l].
  exact K.
Qed.

(** X15: Without a click in the menu, the tracking thread returns with
    [running] as it found it: it never writes [running], never releases
    the camera and never resets the balance.  What it did is a sequence
    of balance updates, followed, once its loop is left, by one
    [destroyAllWindows] of the [finally] block if a window was shown;
    a window shown before, or by a first pass that goes on, counts. *)
Theorem menubar_thread_never_stops_tracking (ticks : list (Menubar.Tick F)) :
  forall (video_window : bool) (st : Menubar.App F),
    Forall (fun t => Menubar.t_events t = []) ticks ->
    match menubar_track_head video_window st ticks with
    | ThreadRunning st' acts _ =>
        Menubar.running st' = Menubar.running st /\
        Forall (fun a => is_actuator a = true) acts
    | ThreadEnded st' acts =>
        Menubar.running st' = Menubar.running st /\
        exists updates,
          Forall (fun a => is_actuator a = true) updates /\
          acts = updates ++
                 if window_shown video_window st ticks
                 then [DestroyAllWindows] else []
    end /\
    (video_window = true -> window_shown video_window st ticks = true) /\
    (forall t rest, ticks = t :: rest ->
       snd (Menubar.loop_pass st t) = true ->
       window_shown video_window st ticks = true).
Proof.
  intros vw st E. split; [|split].
  - pose proof (menubar_loop_keeps_running ticks st E) as [R A].
    rewrite <- (menubar_thread_loop_run ticks vw st) in R, A.
    unfold menubar_track_head, window_shown.
    destruct (menubar_thread_loop vw st ticks) as [[[st' acts] vw'] [|]];
      cbn [fst snd] in *.
    + split; [exact R|]. exists acts. split; [exact A|reflexivity].
    + split; assumption.
  - intros ->. now apply window_shown_keeps.
  - intros t rest -> G. apply window_shown_after_pass; [|exact G].
    exact (Forall_inv_tail E).
Qed.

(** X16: A start that finds no camera keeps the dead capture object, so the
    next click starts the thread without asking the camera again; the
    thread's first pass then ends at once, and the app stays in the
    tracking state without tracking. *)
Theorem failed_start_poisons_next_start (app : Menubar.App F)
    (opens : bool) (t : Menubar.Tick F) :
  Menubar.running app = false ->
  Menubar.t_events t = [] -> Menubar.t_opened t = false ->
  let idle := mkShell app None false "Start Tracking" in
  let '(refused, acts1) := toggle_tracking idle false in
  let '(started, acts2) := toggle_tracking refused opens in
  acts1 = [UiAlert] /\
  Menubar.running (sh_app refused) = false /\ sh_cap refused = Some false /\
  acts2 = [UiStartThread; UiNotify] /\
  sh_cap started = Some false /\
  Menubar.loop_pass (sh_app started) t = (sh_app started, [], false) /\
  Menubar.running (sh_app started) = true.
Proof.
  intros R E O. cbn zeta. unfold toggle_tracking.
  cbn [sh_app sh_cap sh_video_window]. rewrite R. cbn [negb].
  cbn [sh_app sh_cap sh_video_window app_set_running Menubar.running negb].
  repeat split.
  unfold Menubar.loop_pass. rewrite E. cbn [fold_left Menubar.running negb].
  rewrite O. reflexivity.
Qed.

End MenubarRun.


(** X18: The seven bands of the menubar indicator: each threshold belongs to
    the band on its right, so -0.6 reads as a moderate left while 0.6
    already reads as far right. *)
Theorem indicator_bands (b : Q) :
  (indicator b = "◀◀◀"%string <-> b < - (6 # 10)) /\
  (indicator b = "◀◀○"%string <-> - (6 # 10) <= b < - (3 # 10)) /\
  (indicator b = "◀○○"%string <-> - (3 # 10) <= b < - (1 # 10)) /\
  (indicator b = "○○○"%string <-> - (1 # 10) <= b < 1 # 10) /\
  (indicator b = "○○▶"%string <-> 1 # 10 <= b < 3 # 10) /\
  (indicator b = "○▶▶"%string <-> 3 # 10 <= b < 6 # 10) /\
  (indicator b = "▶▶▶"%string <-> 6 # 10 <= b).
Proof.
  unfold indicator. cbn [flt fneg lit ExactQ].
  destruct (Qlt_bool_spec b (- (6 # 10)));
    [|destruct (Qlt_bool_spec b (- (3 # 10)));
      [|destruct (Qlt_bool_spec b (- (1 # 10)));
        [|destruct (Qlt_bool_spec b (1 # 10));
          [|destruct (Qlt_bool_spec b (3 # 10));
            [|destruct (Qlt_bool_spec b (6 # 10))]]]]];
    repeat split; intros; try discriminate; try lra.
Qed.

(** X19: The meter's marker stays on the bar: for a balance between -1 and 1
    and a frame at least 100 wide it lies between 50 and
    [frame_width - 50]. *)
Theorem meter_marker_stays_on_bar (frame_width : Z) (b : Q) :
  (100 <= frame_width)%Z -> -1 <= b <= 1 ->
  exists p, indicator_pos frame_width b = Some p /\
            (50 <= p <= frame_width - 50)%Z.
Proof.
  intros W [L U]. unfold indicator_pos.
  cbn [fdiv fmul fadd of_int to_int ExactQ].
  change (Qeq_bool (inject_Z 2) 0) with false. cbn iota.
  eexists. split; [reflexivity|].
  set (m := inject_Z (frame_width - 100)).
  assert (M : 0 <= m).
  { unfold m. change 0 with (inject_Z 0). rewrite <- Zle_Qle. lia. }
  assert (A : 0 <= m * (b + 1)) by (apply Qmult_le_0_compat; lra).
  assert (B : (b + 1) * m <= 2 * m) by (apply Qmult_le_compat_r; lra).
  set (v := inject_Z 50 + m * (b + inject_Z 1) / inject_Z 2).
  assert (V1 : inject_Z 50 <= v).
  { unfold v. change (inject_Z 1) with 1. change (inject_Z 2) with 2.
    change (inject_Z 50) with 50.
    setoid_replace (m * (b + 1) / 2) with (m * (b + 1) * (1 # 2))
      by reflexivity.
    lra. }
  assert (V2 : v <= inject_Z (frame_width - 50)).
  { unfold v. change (inject_Z 1) with 1. change (inject_Z 2) with 2.
    replace (frame_width - 50)%Z with (50 + (frame_width - 100))%Z by lia.
    rewrite inject_Z_plus. fold m. change (inject_Z 50) with 50.
    setoid_replace (m * (b + 1) / 2) with (m * (b + 1) * (1 # 2))
      by reflexivity.
    lra. }
  rewrite Qtrunc_nonneg by (change (inject_Z 50) with 50 in V1; lra).
  split.
  - rewrite <- (Qfloor_Z 50). apply Qfloor_resp_le, V1.
  - rewrite <- (Qfloor_Z (frame_width - 50)). apply Qfloor_resp_le, V2.
Qed.

Lemma meter_marker_stays_on_bar_witness :
  exists p, indicator_pos 640 (- (4000 # 10240)) = Some p /\
            (50 <= p <= 640 - 50)%Z.
Proof.
  apply (meter_marker_stays_on_bar 640 (- (4000 # 10240))).
  - lia.
  - split; discriminate.
Defined.


Lemma preview_off_is_permanent_witness :
  show_preview
    (fst (fst (run_loop 640 (set_show_preview false q_default) burst)))
  = false /\
  snd (run_loop 640 (set_show_preview false q_default) burst) <> Some QuitKey.
Proof.
  apply (preview_off_is_permanent 640 burst (set_show_preview false q_default)).
  reflexivity.
Defined.

Lemma faceless_pass_disables_preview_witness :
  loop_pass 640 q_default tick_faceless
  = Continue (set_show_preview false q_default) [].
Proof.
  apply (faceless_pass_disables_preview 640 q_default tick_faceless);
    reflexivity.
Defined.

(** X6: A quit typed at the terminal ends the session at the next pass,
    whatever was typed before it and whatever the frame shows: the loop
    makes no balance update in that pass, and the teardown follows.  (The
    input thread reads nothing after a quit, so the quit is the last
    line of a real pass; the statement does not need that.) *)
Theorem terminal_quit_ends_session {F : Type} `{PyFloat F} (w : Z)
    (st : Balancer F) (t : Tick F) (reply : option Z) (rest : list (Tick F)) :
  In ("q"%string, reply) (t_lines t) ->
  let st0 := fold_left handle_terminal_input (t_lines t) st in
  running st0 = false /\
  run_loop w st (t :: rest) = (st0, [], Some Stopped) /\
  track_head st true (Some w) (t :: rest) =
  match restore_balance st0 with
  | Some a =>
      Finished st0
        (CapRelease :: (if show_preview st0 then [DestroyAllWindows] else [])
           ++ [a]) Stopped
  | None =>
      TeardownRaised st0
        (CapRelease :: (if show_preview st0 then [DestroyAllWindows] else []))
  end.
Proof.
  intro I. cbn zeta.
  destruct (terminal_quit_leaves_loop w st t reply rest I) as [R L].
  split; [exact R|]. split; [exact L|].
  rewrite (track_head_teardown _ _ _ _ _ _ L). reflexivity.
Qed.

Lemma terminal_quit_ends_session_witness :
  running (fold_left handle_terminal_input (t_lines tick_typed_quit) q_default)
  = false.
Proof.
  refine (proj1 (terminal_quit_ends_session 640 q_default tick_typed_quit None
                   burst _)).
  cbn. auto.
Defined.

Lemma finished_trace_shape_witness :
  releases
    [SetSystemBalance 30; CapRelease; DestroyAllWindows; SetSystemBalance 28]
  = 1%nat.
Proof.
  destruct (finished_trace_shape b64_system
              (fst (fst (run_loop 640 b64_system
                           [tick_calibrate_29; tick_quit])))
              true (Some 640%Z) [tick_calibrate_29; tick_quit]
              [SetSystemBalance 30; CapRelease; DestroyAllWindows;
               SetSystemBalance 28] QuitKey)
    as (updates & last & _ & _ & _ & _ & R).
  - vm_compute. reflexivity.
  - exact R.
Defined.

Lemma last_face_position_is_retained_witness :
  last_face_position (fst (pass_result (loop_pass 640 q_default tick_faceless)))
  = last_face_position q_default.
Proof.
  apply (proj2 (last_face_position_is_retained 640 q_default tick_faceless)).
  left. reflexivity.
Defined.

Lemma restored_percentage_of_state {F : Type} `{PyFloat F} (st : Balancer F)
    (p : Z) :
  original_system_balance st = Some p ->
  match restore_balance st with
  | Some a => actuator_pct a
  | None => None
  end = restored_percentage p.
Proof.
  intro O. unfold restored_percentage, restore_balance, set_audio_balance.
  rewrite O. cbn [original_system_balance use_eqmac].
  destruct (fdiv _ _); [|reflexivity].
  destruct (balance_percentage _); [|reflexivity].
  destruct (use_eqmac st); reflexivity.
Qed.

(** X20: Toggling the audio mode twice changes nothing, and one toggle sends
    the same percentage to the other backend. *)
Theorem toggle_audio_mode_switches_backend {F : Type} `{PyFloat F}
    (st : Balancer F) (b : F) (a : Action) :
  set_audio_balance st b = Some a ->
  toggle_audio_mode (toggle_audio_mode st) = st /\
  exists a',
    set_audio_balance (toggle_audio_mode st) b = Some a' /\
    actuator_pct a' = actuator_pct a /\ a' <> a.
Proof.
  unfold set_audio_balance, toggle_audio_mode.
  destruct (balance_percentage b) as [p|]; [|discriminate].
  intros [= <-]. split.
  - destruct st as [r l u s c x se o e f ca]. cbn.
    rewrite negb_involutive. reflexivity.
  - cbn [use_eqmac set_use_eqmac].
    destruct (use_eqmac st); cbn [negb]; eexists;
      (split; [reflexivity | split; [reflexivity | discriminate]]).
Qed.

Lemma toggle_audio_mode_switches_backend_witness :
  exists a',
    set_audio_balance (toggle_audio_mode q_default) (25 # 64) = Some a' /\
    actuator_pct a' = actuator_pct (SetEqmacBalance 69) /\
    a' <> SetEqmacBalance 69.
Proof.
  refine (proj2 (toggle_audio_mode_switches_backend q_default (25 # 64)
                   (SetEqmacBalance 69) _)).
  vm_compute. reflexivity.
Defined.

(** X21: [calibrate()] from the terminal takes the last known face position as
    the sweet spot, so a face there maps to balance 0; before any face
    was seen it changes nothing. *)
Theorem terminal_calibrate_uses_last_position (st : Balancer Q)
    (reply : option Z) :
  let st' := handle_terminal_input st ("c"%string, reply) in
  (last_face_position st = None -> st' = st) /\
  (forall p w, last_face_position st = Some p -> (0 < p)%Z ->
               sensitivity_in_range (sensitivity st) ->
               calibration_center_x st' = Some p /\
               exists b, calculate_audio_balance st' p w = Some b /\ b == 0).
Proof.
  cbn zeta. unfold handle_terminal_input. cbn [String.eqb Ascii.eqb Bool.eqb].
  cbn. unfold calibrate. split.
  - intros ->. reflexivity.
  - intros p w -> P S. split; [reflexivity|].
    set (st' := mkBalancer _ _ _ _ _ _ _ _ _ _ _).
    assert (EC : centerQ st' w = inject_Z p) by reflexivity.
    assert (D : 0 < centerQ st' w * sensitivity st').
    { apply divisor_pos; [|exact S]. rewrite EC.
      change 0 with (inject_Z 0). rewrite <- Zlt_Qlt. exact P. }
    assert (N : ~ centerQ st' w * sensitivity st' == 0) by lra.
    eexists. split; [apply calculate_defined, N|].
    assert (R : rawQ st' p w == 0).
    { unfold rawQ. rewrite offsetQ_eq, EC.
      unfold Qdiv. setoid_replace (inject_Z p - inject_Z p) with 0 by ring.
      apply Qmult_0_l. }
    destruct (clampQ_cases (-1) 1 (rawQ st' p w)) as [[A E]|[[A E]|[[A B] E]]];
      try reflexivity; rewrite E; lra.
Qed.

Lemma terminal_calibrate_uses_last_position_witness :
  handle_terminal_input q_default ("c"%string, None) = q_default.
Proof.
  apply (proj1 (terminal_calibrate_uses_last_position q_default None)).
  reflexivity.
Defined.


(** X14: In binary64, whatever the state, a captured percentage from 0 to 100
    comes back from the [finally] block as itself or as the one below
    it, and as the one below exactly for 4, 5, 9, 10, 11, 21, 22, 29, 57
    and 58. *)
Theorem b64_restore_off_by_at_most_one (st : Balancer B64.float) (p : Z) :
  original_system_balance st = Some p -> (0 <= p <= 100)%Z ->
  exists a q,
    restore_balance st = Some a /\ actuator_pct a = Some q /\
    (q = p \/ q = (p - 1)%Z) /\
    (q = (p - 1)%Z <-> In p [4; 5; 9; 10; 11; 21; 22; 29; 57; 58]%Z).
Proof.
  intros O R.
  destruct (b64_restored_percentage_table p R) as (q & E & A & B).
  pose proof (restored_percentage_of_state st p O) as S. rewrite E in S.
  destruct (restore_balance st) as [a|]; [|discriminate].
  exists a, q. auto.
Qed.

Lemma menubar_thread_never_stops_tracking_witness :
  match
    menubar_track_head false (app_set_running true (Menubar.init 0))
      menubar_ticks
  with
  | ThreadRunning st' acts _ => False
  | ThreadEnded st' acts =>
      Menubar.running st' = true /\
      acts = [SetSystemBalance 30; DestroyAllWindows]
  end.
Proof.
  pose proof (menubar_thread_never_stops_tracking menubar_ticks false
                (app_set_running true (Menubar.init 0))
                ltac:(repeat constructor)) as [P _].
  destruct (menubar_track_head false (app_set_running true (Menubar.init 0))
              menubar_ticks) as [st' acts vw|st' acts] eqn:E.
  - vm_compute in E. discriminate E.
  - destruct P as [R _]. split; [exact R|].
    vm_compute in E. injection E as _ E. symmetry. exact E.
Defined.

Lemma failed_start_poisons_next_start_witness :
  snd (toggle_tracking
         (fst (toggle_tracking
                 (mkShell (Menubar.init (B64.of_Z 0)) None false
                    "Start Tracking") false)) true)
  = [UiStartThread; UiNotify].
Proof.
  pose proof (failed_start_poisons_next_start (Menubar.init (B64.of_Z 0))
                true menubar_dead_camera eq_refl eq_refl eq_refl) as P.
  cbn zeta in P.
  destruct (toggle_tracking
              (mkShell (Menubar.init (B64.of_Z 0)) None false "Start Tracking")
              false) as [refused acts1].
  cbn [fst].
  destruct (toggle_tracking refused true) as [started acts2].
  cbn [snd]. apply P.
Defined.

Section Stopping.

Context {F : Type} `{PyFloat F}.

(** X17: Stop and Quit while tracking set the balance to the neutral 50,
    whatever it was before tracking began: the menubar app keeps no
    original balance.  Both release the capture object when there is one
    and leave [running] false; Quit while idle touches nothing. *)
Theorem stopping_resets_to_neutral (sh : Shell F) (opens : bool) :
  Menubar.set_audio_balance (of_int 0) = Some (SetSystemBalance 50) ->
  Menubar.running (sh_app sh) = true ->
  let stopped := toggle_tracking sh opens in
  let quit := quit_app sh in
  Menubar.running (sh_app (fst stopped)) = false /\
  sh_cap (fst stopped) = None /\ sh_video_window (fst stopped) = false /\
  filter (fun a => match a with UiDo _ => true | _ => false end) (snd stopped)
  = [UiDo (SetSystemBalance 50)] /\
  (In UiRelease (snd stopped) <-> sh_cap sh <> None) /\
  Menubar.running (sh_app (fst quit)) = false /\
  filter (fun a => match a with UiDo _ => true | _ => false end) (snd quit)
  = [UiDo (SetSystemBalance 50)] /\
  (In UiRelease (snd quit) <-> sh_cap sh <> None) /\
  quit_app (fst stopped) = (fst stopped, [UiQuit]).
Proof.
  intros N R. cbn zeta. unfold toggle_tracking, quit_app.
  rewrite R, N. cbn [negb fst snd sh_app sh_cap sh_video_window
                      app_set_running Menubar.running].
  destruct (sh_cap sh) as [o|], (sh_video_window sh); cbn;
    repeat split; try reflexivity; try discriminate; try tauto;
    intros; try congruence;
    repeat match goal with
           | K : _ \/ _ |- _ => destruct K
           end; try discriminate; try contradiction; auto.
Qed.

End Stopping.

Lemma stopping_resets_to_neutral_witness :
  filter (fun a => match a with UiDo _ => true | _ => false end)
    (snd (toggle_tracking
            (mkShell (app_set_running true (Menubar.init (B64.of_Z 0)))
               (Some true) true "Stop Tracking") true))
  = [UiDo (SetSystemBalance 50)].
Proof.
  apply (stopping_resets_to_neutral
           (mkShell (app_set_running true (Menubar.init (B64.of_Z 0)))
              (Some true) true "Stop Tracking") true);
    reflexivity.
Defined.


Lemma b64_restore_off_by_at_most_one_witness :
  exists a q,
    restore_balance
      (fst (fst (run_loop 640 b64_system [tick_calibrate_29; tick_quit])))
    = Some a /\ actuator_pct a = Some q /\
    (q = 29%Z \/ q = (29 - 1)%Z) /\
    (q = (29 - 1)%Z <-> In 29%Z [4; 5; 9; 10; 11; 21; 22; 29; 57; 58]%Z).
Proof.
  apply (b64_restore_off_by_at_most_one
           (fst (fst (run_loop 640 b64_system [tick_calibrate_29; tick_quit])))
           29).
  - vm_compute. reflexivity.
  - lia.
Defined.

(** X22: a calibration made while eqMac is the backend captures 50
    whatever the balance really is, so the session then ends by sending
    50 to eqMac; in both arithmetics. *)
Theorem eqmac_calibration_restores_50 :
  (forall (st : Balancer Q) (x : Z) (reply : option Z),
      use_eqmac st = true ->
      original_system_balance (calibrate st (Some x) reply) = Some 50%Z /\
      restore_balance (calibrate st (Some x) reply)
      = Some (SetEqmacBalance 50)) /\
  (forall (st : Balancer B64.float) (x : Z) (reply : option Z),
      use_eqmac st = true ->
      original_system_balance (calibrate st (Some x) reply) = Some 50%Z /\
      restore_balance (calibrate st (Some x) reply)
      = Some (SetEqmacBalance 50)).
Proof.
  split; intros st x reply E;
    unfold calibrate, get_current_system_balance, restore_balance,
      set_audio_balance;
    cbn [original_system_balance use_eqmac]; rewrite E;
    split; reflexivity.
Qed.

Lemma eqmac_calibration_restores_50_witness :
  restore_balance (calibrate b64_default (Some 420%Z) (Some 29%Z))
  = Some (SetEqmacBalance 50).
Proof.
  apply (proj2 eqmac_calibration_restores_50 b64_default 420%Z (Some 29%Z)).
  reflexivity.
Defined.
